(** * rclip: the index-synchronisation engine and the query ranker

    A shallow embedding of [rclip/main.py]: the batch flush [_index_files],
    the mark-and-sweep run [ensure_index], the ranker [search] and the
    constructor of [RClip].  The persistent store ([rclip.db]), the
    directory scanner ([rclip.fs]), the extraction model ([rclip.model])
    and [rclip.utils.helpers] are collaborators of [main.py]; the store is
    modelled from the specification, the others are parameters. *)

From Stdlib Require Import List String Ascii ZArith Bool Lia.
Import ListNotations.
Local Open Scope string_scope.
Local Open Scope list_scope.
Local Open Scope Z_scope.

Set Implicit Arguments.

(** ** Filesystem metadata *)

(** [ImageMeta] of main.py.  [modified_at] is [st_mtime]; the program only
    ever compares it with [!=], so a timestamp is an integer here. *)
Record ImageMeta := mkMeta { modified_at : Z; size : Z }.

(** The keys of the [ImageMeta] dictionary, in insertion order. *)
Inductive MetaKey := K_modified_at | K_size.

Definition meta_keys : list MetaKey := [K_modified_at; K_size].

Definition meta_get (meta : ImageMeta) (key : MetaKey) : Z :=
  match key with
  | K_modified_at => modified_at meta
  | K_size => size meta
  end.

(** What [os.DirEntry] offers to main.py: [entry.path] and [entry.stat()],
    which may raise ([None]). *)
Record DirEntry := mkEntry { path : string; entry_stat : option ImageMeta }.

(** [get_image_meta]: [None] stands for the exception of [entry.stat()]. *)
Definition get_image_meta (entry : DirEntry) : option ImageMeta :=
  match entry_stat entry with
  | Some st => Some (mkMeta (modified_at st) (size st))
  | None => None
  end.

(** ** Exceptions that leave the two entry points *)

Inductive exn :=
| ZeroDivisionError
| IndexError
| ValueError
| ModelError.

Inductive Result (A : Type) :=
| Ok (a : A)
| Raise (e : exn).
Arguments Ok {A} a.
Arguments Raise {A} e.

Section RClip.

(** Opaque to the core: a decoded image, a feature vector as stored
    ([vector.tobytes()]) and a similarity score. *)
Variables DecodedImage FeatureVector Score : Type.

(** [os.path.sep]. *)
Variable sep : string.

(** ** The index store *)

(** [db.Image]: one row of the store. *)
Record Image := mkImage {
  filepath : string;
  i_modified_at : Z;
  i_size : Z;
  hash : string;
  vector : FeatureVector;
  indexing : bool
}.

(** [db.NewImage]: the argument of an upsert. *)
Record NewImage := mkNewImage {
  n_filepath : string;
  n_modified_at : Z;
  n_size : Z;
  n_vector : FeatureVector;
  n_hash : string
}.

Definition image_get (image : Image) (key : MetaKey) : Z :=
  match key with
  | K_modified_at => i_modified_at image
  | K_size => i_size image
  end.

Definition set_indexing (flag : bool) (r : Image) : Image :=
  mkImage (filepath r) (i_modified_at r) (i_size r) (hash r) (vector r) flag.

Definition set_filepath (p : string) (r : Image) : Image :=
  mkImage p (i_modified_at r) (i_size r) (hash r) (vector r) (indexing r).

(** [rclip/db.py] is not part of the sources: the store is the table of
    records in insertion order, and each operation below is the one
    section 4.4 of the specification lists. *)

(** Modelled from the spec: "records whose path is lexically under that
    prefix". *)
Definition under (directory p : string) : bool :=
  String.prefix (directory ++ sep)%string p.

(** Modelled from the spec: lookup-by-path. *)
Definition get_image (db : list Image) (p : string) : option Image :=
  find (fun r => String.eqb (filepath r) p) db.

(** Modelled from the spec: lookup-by-hash. *)
Definition get_image_by_hash (db : list Image) (h : string) : option Image :=
  find (fun r => String.eqb (hash r) h) db.

(** Modelled from the spec: the record an upsert writes, its flag
    "implicitly absent/false". *)
Definition fresh (n : NewImage) : Image :=
  mkImage (n_filepath n) (n_modified_at n) (n_size n) (n_hash n)
          (n_vector n) false.

(** Modelled from the spec: "upsert (insert or full update)"; "flag is
    implicitly absent/false for a freshly written record". *)
Definition upsert_image (db : list Image) (n : NewImage) : list Image :=
  if existsb (fun r => String.eqb (filepath r) (n_filepath n)) db
  then map (fun r => if String.eqb (filepath r) (n_filepath n)
                     then fresh n else r) db
  else db ++ [fresh n].

(** Modelled from the spec: "path-only update (rename)": "update only the
    path field of that record (vector and hash reused)". *)
Definition update_image_filepath (db : list Image) (old new : string)
  : list Image :=
  map (fun r => if String.eqb (filepath r) old then set_filepath new r
                else r) db.

(** Modelled from the spec: "clear indexing_flag for all records". *)
Definition remove_indexing_flag_from_all_images (db : list Image)
  : list Image :=
  map (set_indexing false) db.

(** Modelled from the spec: "set indexing_flag=true for all records under
    directory prefix D". *)
Definition flag_images_in_a_dir_as_indexing (db : list Image)
  (directory : string) : list Image :=
  map (fun r => if under directory (filepath r)
                then set_indexing true r else r) db.

(** Modelled from the spec: "clear indexing_flag for one path". *)
Definition remove_indexing_flag (db : list Image) (p : string)
  : list Image :=
  map (fun r => if String.eqb (filepath r) p
                then set_indexing false r else r) db.

(** Modelled from the spec: "delete all records under prefix D still
    flagged". *)
Definition flag_indexing_images_in_a_dir_as_deleted (db : list Image)
  (directory : string) : list Image :=
  filter (fun r => negb (under directory (filepath r) && indexing r)) db.

(** Modelled from the spec: "Listing by directory prefix returns all
    records whose path is lexically under that prefix, each with its
    stored vector". *)
Definition get_image_vectors_by_dir_path (db : list Image)
  (directory : string) : list (string * FeatureVector) :=
  map (fun r => (filepath r, vector r))
      (filter (fun r => under directory (filepath r)) db).

(** ** The collaborators of main.py *)

(** [rclip.model.Model]: [None] is a raised exception. *)
Record Model := mkModel {
  compute_image_features : list DecodedImage -> option (list FeatureVector);
  compute_similarities_to_text :
    list FeatureVector -> list string -> list string
    -> option (list (Score * Z))
}.

(** Outcome of [Image.open(path)]. *)
Inductive OpenResult :=
| Opened (image : DecodedImage)
| UnidentifiedImageError
| OpenException.

(** A snapshot of the filesystem as main.py reads it: the sequence that
    [fs.walk(directory, exclude_regex, IMAGE_REGEX)] yields, [Image.open]
    and the digest of [_compute_image_hash] ([None]: reading raises). *)
Record FileSystem := mkFS {
  walk : string -> string -> list DirEntry;
  image_open : string -> OpenResult;
  file_md5 : string -> option string
}.

(** ** The state the program mutates *)

(** [db]: the session's view of the store; [committed]: what the last
    commit made durable; [model_calls]: the argument of every call of
    [compute_image_features], oldest first. *)
Record World := mkWorld {
  db : list Image;
  committed : list Image;
  model_calls : list (list DecodedImage)
}.

Definition set_db (w : World) (d : list Image) : World :=
  mkWorld d (committed w) (model_calls w).

Definition commit (w : World) : World :=
  mkWorld (db w) (db w) (model_calls w).

(** A mutation of the store with its [commit=] argument. *)
Definition mutate (f : list Image -> list Image) (do_commit : bool)
  (w : World) : World :=
  let w' := set_db w (f (db w)) in
  if do_commit then commit w' else w'.

Definition log_model_call (images : list DecodedImage) (w : World) : World :=
  mkWorld (db w) (committed w) (model_calls w ++ [images]).

(** Computations of the two entry points: they read and may write the
    world, and may raise. *)
Definition M (A : Type) : Type := World -> Result A * World.

Definition ret {A : Type} (a : A) : M A := fun w => (Ok a, w).

Definition raise {A : Type} (e : exn) : M A := fun w => (Raise e, w).

Definition bind {A B : Type} (m : M A) (k : A -> M B) : M B :=
  fun w =>
    match m w with
    | (Ok a, w') => k a w'
    | (Raise e, w') => (Raise e, w')
    end.

Notation "x <- m ;; k" := (bind m (fun x => k))
  (at level 61, m at next level, right associativity).

(** ** main.py *)

(** [is_image_meta_equal]: the loop over the keys of [meta]. *)
Fixpoint meta_equal_on (keys : list MetaKey) (image : Image)
  (meta : ImageMeta) : bool :=
  match keys with
  | [] => true
  | key :: keys' =>
      if negb (Z.eqb (meta_get meta key) (image_get image key))
      then false
      else meta_equal_on keys' image meta
  end.

Definition is_image_meta_equal (image : Image) (meta : ImageMeta) : bool :=
  meta_equal_on meta_keys image meta.

(** [RClip]: the fields [__init__] sets, the store apart (it lives in
    [World]). *)
Record RClip := mkRClip {
  _model : Model;
  _indexing_batch_size : Z;
  _exclude_dir_regex : string
}.

Definition DB_IMAGES_BEFORE_COMMIT : Z := 50000.

Definition EXCLUDE_DIRS_DEFAULT : list string :=
  ["@eaDir"; "node_modules"; ".git"].

(** The three lists the first loop of [_index_files] builds.  A file whose
    [Image.open] raises adds to none of them; a file that opens but whose
    digest raises has already been added to [images] and
    [filtered_paths]. *)
Fixpoint load_images (fs : FileSystem) (filepaths : list string)
  : list DecodedImage * list string * list string :=
  match filepaths with
  | [] => ([], [], [])
  | p :: rest =>
      let '(images, filtered_paths, hashes) := load_images fs rest in
      match image_open fs p with
      | Opened image =>
          (image :: images, p :: filtered_paths,
           match file_md5 fs p with
           | Some h => h :: hashes
           | None => hashes
           end)
      | UnidentifiedImageError => (images, filtered_paths, hashes)
      | OpenException => (images, filtered_paths, hashes)
      end
  end.

(** [zip] of four lists: as long as the shortest. *)
Fixpoint zip4 {A B C D : Type} (la : list A) (lb : list B) (lc : list C)
  (ld : list D) : list (A * B * C * D) :=
  match la, lb, lc, ld with
  | a :: la', b :: lb', c :: lc', d :: ld' =>
      (a, b, c, d) :: zip4 la' lb' lc' ld'
  | _, _, _, _ => []
  end.

(** The body of the second loop of [_index_files]. *)
Definition reconcile (d : list Image)
  (item : string * ImageMeta * FeatureVector * string) : list Image :=
  let '(p, meta, vec, h) := item in
  match get_image_by_hash d h with
  | Some existing_image =>
      if negb (String.eqb (filepath existing_image) p)
      then update_image_filepath d (filepath existing_image) p
      else upsert_image d
             (mkNewImage p (modified_at meta) (size meta) vec h)
  | None =>
      upsert_image d (mkNewImage p (modified_at meta) (size meta) vec h)
  end.

(** [RClip._index_files]. *)
Definition _index_files (self : RClip) (fs : FileSystem)
  (filepaths : list string) (metas : list ImageMeta) (w : World) : World :=
  let '(images, filtered_paths, hashes) := load_images fs filepaths in
  let w1 := log_model_call images w in
  match compute_image_features (_model self) images with
  | None => w1
  | Some features =>
      set_db w1
        (fold_left reconcile (zip4 filtered_paths metas features hashes)
                   (db w1))
  end.

(** The local variables of the loop of [ensure_index]. *)
Record LoopState := mkLoop {
  l_world : World;
  images_processed : Z;
  batch : list string;
  metas : list ImageMeta
}.

(** One iteration of the loop of [ensure_index]. *)
Definition walk_step (self : RClip) (fs : FileSystem) (st : LoopState)
  (entry : DirEntry) : LoopState :=
  let p := path entry in
  let image := get_image (db (l_world st)) p in
  match get_image_meta entry with
  | None => st
  | Some meta =>
      let w1 := if Z.eqb (images_processed st mod DB_IMAGES_BEFORE_COMMIT) 0
                then commit (l_world st) else l_world st in
      let n := images_processed st + 1 in
      let unchanged := match image with
                       | Some im => is_image_meta_equal im meta
                       | None => false
                       end in
      if unchanged
      then mkLoop (mutate (fun d => remove_indexing_flag d p) false w1)
                  n (batch st) (metas st)
      else
        let batch' := batch st ++ [p] in
        let metas' := metas st ++ [meta] in
        if Z.geb (Z.of_nat (List.length batch')) (_indexing_batch_size self)
        then mkLoop (_index_files self fs batch' metas' w1) n [] []
        else mkLoop w1 n batch' metas'
  end.

Definition walk_loop (self : RClip) (fs : FileSystem) (st : LoopState)
  (entries : list DirEntry) : LoopState :=
  fold_left (walk_step self fs) entries st.

(** The state of the store when the loop starts: the global unflag, then
    the local flag with its commit. *)
Definition mark (directory : string) (w : World) : World :=
  mutate (fun d => flag_images_in_a_dir_as_indexing d directory) true
    (mutate remove_indexing_flag_from_all_images false w).

(** The trailing flush. *)
Definition flush_rest (self : RClip) (fs : FileSystem) (st : LoopState)
  : World :=
  if negb (Nat.eqb (List.length (batch st)) 0)
  then _index_files self fs (batch st) (metas st) (l_world st)
  else l_world st.

(** What follows the loop: the trailing flush, the final commit and the
    sweep, which commits. *)
Definition finish (self : RClip) (fs : FileSystem) (directory : string)
  (st : LoopState) : World :=
  mutate (fun d => flag_indexing_images_in_a_dir_as_deleted d directory)
         true (commit (flush_rest self fs st)).

(** [RClip.ensure_index].  The average lookup time printed after the loop
    divides by [images_processed]. *)
Definition ensure_index (self : RClip) (fs : FileSystem)
  (directory : string) : M unit :=
  fun w =>
    let st := walk_loop self fs (mkLoop (mark directory w) 0 [] [])
                (walk fs directory (_exclude_dir_regex self)) in
    if Z.eqb (images_processed st) 0
    then (Raise ZeroDivisionError, l_world st)
    else (Ok tt, finish self fs directory st).

(** ** Interrupted runs *)






(** ** Stores in step with the tree *)

(** The metadata a record holds. *)
Definition record_meta (r : Image) : ImageMeta :=
  mkMeta (i_modified_at r) (i_size r).

(** [entries] has an entry of path [p] whose metadata reads [meta]. *)
Definition scanned_as (entries : list DirEntry) (p : string)
  (meta : ImageMeta) : Prop :=
  exists e, In e entries /\ path e = p /\ get_image_meta e = Some meta.

(** A store with one record per path, in which a record that holds the
    digest of a scanned file is the record of that file, and in which the
    records under [directory] that are not flagged hold the metadata of
    their file. *)
Definition aligned_store (fs : FileSystem) (entries : list DirEntry)
  (directory : string) (d : list Image) : Prop :=
  NoDup (map filepath d)
  /\ (forall r e, In r d -> In e entries ->
                  file_md5 fs (path e) = Some (hash r) ->
                  filepath r = path e)
  /\ (forall r, In r d -> under directory (filepath r) = true ->
                indexing r = false ->
                scanned_as entries (filepath r) (record_meta r)).

(** ** The constructor *)

Definition backslash : string := String (ascii_of_nat 92) EmptyString.

(** The characters [re.escape] puts a backslash before. *)
Definition re_special_chars : list ascii :=
  list_ascii_of_string "()[]{}?*+-|^$" ++ [ascii_of_nat 92] ++
  list_ascii_of_string ".&~# " ++
  map ascii_of_nat [9; 10; 13; 11; 12]%nat.

Fixpoint re_escape (s : string) : string :=
  match s with
  | EmptyString => EmptyString
  | String c s' =>
      if existsb (Ascii.eqb c) re_special_chars
      then String (ascii_of_nat 92) (String c (re_escape s'))
      else String c (re_escape s')
  end.

(** [exclude_dirs or self.EXCLUDE_DIRS_DEFAULT]: [None] and the empty list
    are both falsy. *)
Definition exclude_dirs_or_default (exclude_dirs : option (list string))
  : list string :=
  match exclude_dirs with
  | None => EXCLUDE_DIRS_DEFAULT
  | Some [] => EXCLUDE_DIRS_DEFAULT
  | Some (d :: ds) => d :: ds
  end.

(** [RClip.__init__]; the compiled expression is kept as its source. *)
Definition __init__ (model_instance : Model) (indexing_batch_size : Z)
  (exclude_dirs : option (list string)) : RClip :=
  let excluded_dirs :=
    String.concat "|" (map re_escape (exclude_dirs_or_default exclude_dirs)) in
  mkRClip model_instance indexing_batch_size
    ("^.+" ++ backslash ++ sep ++ "(" ++ excluded_dirs ++ ")("
     ++ backslash ++ sep ++ ".+)?$")%string.

(** ** The ranker *)

(** [re.Pattern.match] of the standard library: the expression, then the
    subject. *)
Variable re_match : string -> string -> bool.

(** [helpers.is_file_path] and [os.path.abspath]. *)
Variable is_file_path : string -> bool.
Variable abspath : string -> string.

(** A query of the store. *)
Definition query {A : Type} (f : list Image -> A) : M A :=
  fun w => (Ok (f (db w)), w).

Definition lift_option {A : Type} (e : exn) (o : option A) : M A :=
  match o with
  | Some a => ret a
  | None => raise e
  end.

(** [l[i]] of Python: a negative index counts from the end. *)
Definition py_index {A : Type} (l : list A) (i : Z) : option A :=
  let n := Z.of_nat (List.length l) in
  if (0 <=? i) && (i <? n) then nth_error l (Z.to_nat i)
  else if (- n <=? i) && (i <? 0) then nth_error l (Z.to_nat (n + i))
  else None.

Record SearchResult := mkSearchResult { r_filepath : string; r_score : Score }.

(** [RClip._get_features]; [np.frombuffer] and [np.stack] keep the vectors
    as they are stored. *)
Definition _get_features (self : RClip) (directory : string)
  : M (list string * list FeatureVector) :=
  rows <- query (fun d => get_image_vectors_by_dir_path d directory) ;;
  ret (map fst rows, map snd rows).

(** The lambda that [search] filters with; [None] is the [IndexError] of
    [filepaths[similarity[1]]]. *)
Definition keep_similarity (self : RClip) (filepaths exclude_files : list string)
  (similarity : Score * Z) : option bool :=
  match py_index filepaths (snd similarity) with
  | None => None
  | Some p =>
      Some (negb (re_match (_exclude_dir_regex self) p)
            && negb (existsb (String.eqb p) exclude_files))
  end.

(** [itertools.islice(filter(keep, similarities), k)], consumed: the
    filter is lazy, so nothing is read past the [k]-th survivor. *)
Fixpoint islice_filter (keep : Score * Z -> option bool)
  (similarities : list (Score * Z)) (k : nat)
  : option (list (Score * Z)) :=
  match k with
  | O => Some []
  | S k' =>
      match similarities with
      | [] => Some []
      | s :: rest =>
          match keep s with
          | None => None
          | Some true =>
              match islice_filter keep rest k' with
              | Some l => Some (s :: l)
              | None => None
              end
          | Some false => islice_filter keep rest k
          end
      end
  end.

(** The list comprehension that ends [search]. *)
Fixpoint to_results (filepaths : list string) (top : list (Score * Z))
  : option (list SearchResult) :=
  match top with
  | [] => Some []
  | th :: rest =>
      match py_index filepaths (snd th), to_results filepaths rest with
      | Some p, Some l => Some (mkSearchResult p (fst th) :: l)
      | _, _ => None
      end
  end.

(** [RClip.search].  [islice] refuses a negative [top_k]. *)
Definition search (self : RClip) (query_text : string) (directory : string)
  (top_k : Z) (positive_queries negative_queries : list string)
  : M (list SearchResult) :=
  ff <- _get_features self directory ;;
  let '(filepaths, features) := ff in
  let positive_queries := query_text :: positive_queries in
  sorted_similarities <-
    lift_option ModelError
      (compute_similarities_to_text (_model self) features
         positive_queries negative_queries) ;;
  let exclude_files :=
    map abspath (filter is_file_path (positive_queries ++ negative_queries)) in
  if top_k <? 0 then raise ValueError else
  top_k_similarities <-
    lift_option IndexError
      (islice_filter (keep_similarity self filepaths exclude_files)
         sorted_similarities (Z.to_nat top_k)) ;;
  lift_option IndexError (to_results filepaths top_k_similarities).

(** ** The caller *)

(** [init_rclip].  [model.Model(device=...)] is [make_model], the opened
    database is the world, and of the triple returned the instance is
    kept: the model is its field.  [device or "cpu"]: the empty string is
    falsy. *)
Definition init_rclip (make_model : string -> Model) (fs : FileSystem)
  (working_directory : string) (indexing_batch_size : Z) (device : string)
  (exclude_dir : option (list string)) (no_indexing : bool) : M RClip :=
  let model_instance :=
    make_model (if String.eqb device "" then "cpu" else device) in
  let rclip := __init__ model_instance indexing_batch_size exclude_dir in
  if negb no_indexing
  then (done <- ensure_index rclip fs working_directory ;; ret rclip)
  else ret rclip.

End RClip.

(** ** Concrete snapshots

    Files of a small tree, a model that answers for every image, and the
    worlds the examples below start from.  Decoded images and vectors are
    strings here, scores are integers. *)

Record File := mkFile {
  f_path : string;
  f_stat : option ImageMeta;
  f_image : OpenResult string;
  f_md5 : option string
}.

Definition find_file (files : list File) (p : string) : option File :=
  find (fun f => String.eqb (f_path f) p) files.

(** The snapshot made of [files], traversed in the order of the list. *)
Definition snapshot (files : list File) : FileSystem string :=
  mkFS
    (fun directory _ =>
       map (fun f => mkEntry (f_path f) (f_stat f))
           (filter (fun f => under "/" directory (f_path f)) files))
    (fun p => match find_file files p with
              | Some f => f_image f
              | None => OpenException string
              end)
    (fun p => match find_file files p with
              | Some f => f_md5 f
              | None => None
              end).

(** A model that extracts one vector per image and refuses to rank. *)
Definition echo_model : Model string string Z :=
  mkModel (fun images => Some (map (fun i => ("vec:" ++ i)%string) images))
          (fun _ _ _ => None).

(** A model whose extraction fails on any batch that holds the image
    ["Z"]. *)
Definition picky_model : Model string string Z :=
  mkModel (fun images =>
             if existsb (String.eqb "Z") images then None
             else Some (map (fun i => ("vec:" ++ i)%string) images))
          (fun _ _ _ => None).

Definition empty_world : World string string := mkWorld [] [] [].

Definition world_of (d : list (Image string)) : World string string :=
  mkWorld d d [].

(** A file that is no image, followed by an image. *)
Definition broken_then_good : list File :=
  [ mkFile "/r/x.jpg" (Some (mkMeta 1 10)) (UnidentifiedImageError string)
           (Some "hx");
    mkFile "/r/y.jpg" (Some (mkMeta 2 20)) (Opened "Y") (Some "hy") ].


Definition renamed_tree : list File :=
  [ mkFile "/r/b.jpg" (Some (mkMeta 1 10)) (Opened "B") (Some "H") ].

(** A record outside the root, and under the root a later copy of its
    file. *)
Definition record_elsewhere : Image string :=
  mkImage "/o/a.jpg" 1 10 "H" "V" false.

Definition copied_tree : list File :=
  [ mkFile "/o/a.jpg" (Some (mkMeta 1 10)) (Opened "B") (Some "H");
    mkFile "/r/b.jpg" (Some (mkMeta 2 10)) (Opened "B") (Some "H") ].

(** An image the model extracts and one it fails on. *)
Definition good_and_failing : list File :=
  [ mkFile "/r/g.jpg" (Some (mkMeta 1 10)) (Opened "G") (Some "hg");
    mkFile "/r/z.jpg" (Some (mkMeta 2 20)) (Opened "Z") (Some "hz") ].

(** Two indexed images and a model that ranks the first above the
    second. *)
Definition indexed_pair : list (Image string) :=
  [ mkImage "/r/q.jpg" 1 10 "hq" "vq" false;
    mkImage "/r/o.jpg" 2 20 "ho" "vo" false ].

Definition ranking_model : Model string string Z :=
  mkModel (fun images => Some (map (fun i => ("vec:" ++ i)%string) images))
          (fun _ _ _ => Some [(9, 0); (5, 1)]).

(** The record of a file that is no longer in the tree. *)
Definition record_c : Image string := mkImage "/r/c.jpg" 3 30 "hc" "vc" false.

(** An instance over [model] with batches of [batch_size] files, and its
    run over the root [/r] of the tree [files]. *)
Definition rclip_of (model : Model string string Z) (batch_size : Z)
  : RClip string string Z :=
  mkRClip model batch_size "".

Definition run (model : Model string string Z) (batch_size : Z)
  (files : list File) : M string string unit :=
  ensure_index "/" (rclip_of model batch_size) (snapshot files) "/r".

(** A record outside the root, still flagged by a run that stopped. *)
Definition record_far : Image string := mkImage "/o/k.jpg" 5 50 "hk" "vk" true.

(** A model whose ranking is empty. *)
Definition silent_model : Model string string Z :=
  mkModel (fun images => Some (map (fun i => ("vec:" ++ i)%string) images))
          (fun _ _ _ => Some []).

(** The search of the examples: a query is a file when it starts with a
    slash, paths are absolute already, and the expression of the excluded
    directories matches the paths that [excluded] holds. *)
Definition search_in (excluded : list string) (model : Model string string Z)
  (d : list (Image string)) (query_text : string) (top_k : Z)
  : Result (list (SearchResult Z)) * World string string :=
  search "/" (fun _ p => existsb (String.eqb p) excluded) (String.prefix "/")
    (fun p => p) (rclip_of model 8) query_text "/r" top_k [] [] (world_of d).

(** ** Properties *)

Section Properties.

Variables DecodedImage FeatureVector Score : Type.
Variable sep : string.

Implicit Types (self : RClip DecodedImage FeatureVector Score).
Implicit Types (fs : FileSystem DecodedImage).
Implicit Types (w : World DecodedImage FeatureVector).
Implicit Types (d : list (Image FeatureVector)).
Implicit Types (r : Image FeatureVector).

(** *** The constructor *)


(** *** The ranker *)

Section Ranker.

Variable re_match : string -> string -> bool.
Variable is_file_path : string -> bool.
Variable abspath : string -> string.

Lemma islice_filter_kept :
  forall (keep : Score * Z -> option bool) sims k top,
    islice_filter keep sims k = Some top ->
    Forall (fun s => keep s = Some true) top.
Proof.
  intros keep sims. induction sims as [|s rest IH]; intros k top H.
  - destruct k; simpl in H; injection H as <-; constructor.
  - destruct k as [|k']; simpl in H.
    + injection H as <-. constructor.
    + destruct (keep s) as [[|]|] eqn:Hk; try discriminate.
      * destruct (islice_filter keep rest k') as [l|] eqn:Hl;
          try discriminate.
        injection H as <-. constructor; [exact Hk | eauto].
      * eauto.
Qed.

Lemma to_results_paths :
  forall (filepaths : list string) (top : list (Score * Z)) results,
    to_results filepaths top = Some results ->
    forall res, In res results ->
      exists th, In th top
                 /\ py_index filepaths (snd th) = Some (r_filepath res).
Proof.
  intros filepaths top. induction top as [|th rest IH]; intros results H res Hin.
  - injection H as <-. contradiction.
  - simpl in H.
    destruct (py_index filepaths (snd th)) as [p|] eqn:Hp; try discriminate.
    destruct (to_results filepaths rest) as [l|] eqn:Hl; try discriminate.
    injection H as <-. destruct Hin as [<-|Hin].
    + exists th. split; [now left | exact Hp].
    + destruct (IH l eq_refl res Hin) as [th' [Hth' Hidx]].
      exists th'. split; [now right | exact Hidx].
Qed.

(** What [search] returns, when it returns. *)
Lemma search_returns :
  forall self query_text directory top_k positive negative w results w',
    search sep re_match is_file_path abspath self query_text directory top_k
      positive negative w = (Ok results, w') ->
    exists filepaths sims top,
      islice_filter
        (keep_similarity re_match self filepaths
           (map abspath
              (filter is_file_path ((query_text :: positive) ++ negative))))
        sims (Z.to_nat top_k) = Some top
      /\ to_results filepaths top = Some results.
Proof.
  intros self q directory top_k pos neg w results w' H.
  unfold search, _get_features, bind, query, ret in H. simpl in H.
  match type of H with
  | context [compute_similarities_to_text ?m ?f ?p ?n] =>
      destruct (compute_similarities_to_text m f p n) as [sims|] eqn:Hs
  end; try discriminate.
  simpl in H. destruct (top_k <? 0); try discriminate.
  unfold bind in H.
  match type of H with
  | context [islice_filter ?k ?s ?n] =>
      destruct (islice_filter k s n) as [top|] eqn:Ht
  end; try discriminate.
  simpl in H.
  match type of H with
  | context [to_results ?f ?t] =>
      destruct (to_results f t) as [res|] eqn:Hr
  end; try discriminate.
  simpl in H. injection H as <- <-. eauto.
Qed.

(** C8: whatever the store, the root, [top_k] and the queries, the
    absolute path of a positive or negative query that is a file path (the
    primary query included) is the path of no result that [search]
    returns. *)
Theorem search_excludes_query_files :
  forall self query_text directory top_k positive negative w results w' q,
    search sep re_match is_file_path abspath self query_text directory top_k
      positive negative w = (Ok results, w') ->
    In q (query_text :: positive ++ negative) ->
    is_file_path q = true ->
    ~ In (abspath q) (map (@r_filepath Score) results).
Proof.
  intros self query_text directory top_k pos neg w results w' q H Hq Hfile Hin.
  destruct (search_returns _ _ _ _ _ _ _ H) as (filepaths & sims & top & Ht & Hr).
  apply in_map_iff in Hin. destruct Hin as (res & Hpath & Hres).
  destruct (to_results_paths _ _ Hr _ Hres) as (th & Hth & Hidx).
  pose proof (islice_filter_kept _ _ _ Ht) as Hkept.
  rewrite Forall_forall in Hkept. specialize (Hkept th Hth).
  unfold keep_similarity in Hkept. rewrite Hidx in Hkept.
  injection Hkept as Hkept.
  apply andb_prop in Hkept. destruct Hkept as [_ Hex].
  apply negb_true_iff in Hex.
  assert (Hmem : existsb (String.eqb (r_filepath res))
                   (map abspath
                      (filter is_file_path
                         ((query_text :: pos) ++ neg))) = true).
  { apply existsb_exists. exists (abspath q). split.
    - apply in_map. apply filter_In. split; [exact Hq | exact Hfile].
    - rewrite Hpath. apply String.eqb_refl. }
  simpl in Hmem. congruence.
Qed.

(** C10: [search] leaves the world as it found it, whether it returns or
    raises: every record of the store, what is committed and the log of
    extraction calls are the same after the call. *)
Theorem search_reads_only :
  forall self query_text directory top_k positive negative w,
    snd (search sep re_match is_file_path abspath self query_text directory
           top_k positive negative w) = w.
Proof.
  intros self q directory top_k pos neg w.
  unfold search, _get_features, bind, query, ret. simpl.
  match goal with
  | |- context [compute_similarities_to_text ?m ?f ?p ?n] =>
      destruct (compute_similarities_to_text m f p n) as [sims|]
  end; simpl; [|reflexivity].
  destruct (top_k <? 0); [reflexivity|].
  unfold bind.
  match goal with
  | |- context [islice_filter ?k ?s ?n] =>
      destruct (islice_filter k s n) as [top|]
  end; simpl; [|reflexivity].
  match goal with
  | |- context [to_results ?f ?t] => destruct (to_results f t)
  end; reflexivity.
Qed.

End Ranker.

(** *** The world under the store operations *)

Lemma db_mutate :
  forall (f : list (Image FeatureVector) -> list (Image FeatureVector)) c w,
    db (mutate f c w) = f (db w).
Proof. intros f [] w; reflexivity. Qed.

Lemma model_calls_mutate :
  forall (f : list (Image FeatureVector) -> list (Image FeatureVector)) c w,
    model_calls (mutate f c w) = model_calls w.
Proof. intros f [] w; reflexivity. Qed.



(** A flush leaves what is committed alone, logs one extraction call, and
    either leaves the store alone (the call failed) or folds [reconcile]
    over the zipped lists. *)
Lemma index_files_cases :
  forall self fs filepaths ms w,
  exists images filtered_paths hashes,
    load_images fs filepaths = (images, filtered_paths, hashes)
    /\ committed (_index_files self fs filepaths ms w) = committed w
    /\ model_calls (_index_files self fs filepaths ms w)
       = model_calls w ++ [images]
    /\ ((compute_image_features (_model self) images = None
         /\ db (_index_files self fs filepaths ms w) = db w)
        \/ (exists features,
              compute_image_features (_model self) images = Some features
              /\ db (_index_files self fs filepaths ms w)
                 = fold_left (@reconcile FeatureVector)
                     (zip4 filtered_paths ms features hashes) (db w))).
Proof.
  intros self fs filepaths ms w. unfold _index_files.
  destruct (load_images fs filepaths) as [[images filtered_paths] hashes].
  exists images, filtered_paths, hashes. split; [reflexivity|].
  destruct (compute_image_features (_model self) images) as [features|].
  - repeat split. right. exists features. split; reflexivity.
  - repeat split. left. split; reflexivity.
Qed.

Lemma load_images_filtered_In :
  forall fs filepaths images filtered_paths hashes,
    load_images fs filepaths = (images, filtered_paths, hashes) ->
    forall p, In p filtered_paths -> In p filepaths.
Proof.
  intros fs filepaths.
  induction filepaths as [|q rest IH]; intros images filtered hashes H p Hp.
  - injection H as <- <- <-. contradiction.
  - simpl in H.
    destruct (load_images fs rest) as [[is0 fp0] hs0].
    destruct (image_open fs q).
    + injection H as <- <- <-. destruct Hp as [<-|Hp].
      * now left.
      * right. eapply IH; [reflexivity | exact Hp].
    + injection H as <- <- <-. right. eapply IH; [reflexivity | exact Hp].
    + injection H as <- <- <-. right. eapply IH; [reflexivity | exact Hp].
Qed.

Lemma zip4_In :
  forall (A B C D : Type) (la : list A) (lb : list B) (lc : list C)
         (ld : list D) a b c e,
    In (a, b, c, e) (zip4 la lb lc ld) ->
    In a la /\ In b lb /\ In c lc /\ In e ld.
Proof.
  intros A B C D la. induction la as [|a0 la IH]; intros lb lc ld a b c e H.
  - contradiction.
  - destruct lb as [|b0 lb]; [contradiction|].
    destruct lc as [|c0 lc]; [contradiction|].
    destruct ld as [|e0 ld]; [contradiction|].
    destruct H as [H|H].
    + injection H as <- <- <- <-. repeat split; now left.
    + apply IH in H. destruct H as (Ha & Hb & Hc & He).
      repeat split; now right.
Qed.

Lemma walk_loop_app :
  forall self fs st l1 l2,
    walk_loop self fs st (l1 ++ l2)
    = walk_loop self fs (walk_loop self fs st l1) l2.
Proof. intros. unfold walk_loop. apply fold_left_app. Qed.

(** *** Invariants of the store that a run keeps

    A property [Q] of the store that the three writes of the loop keep,
    whenever the path they write is [touched], holds after the loop and
    the trailing flush if it held when the loop started. *)

Section StoreInvariant.

Variable touched : string -> Prop.
Variable Q : list (Image FeatureVector) -> Prop.

Hypothesis Q_unflag :
  forall d p, touched p -> Q d -> Q (remove_indexing_flag d p).
Hypothesis Q_upsert :
  forall d n, touched (n_filepath n) -> Q d -> Q (upsert_image d n).
Hypothesis Q_rename :
  forall d old p, touched p -> Q d -> Q (update_image_filepath d old p).

Lemma Q_reconcile :
  forall d p meta vec h,
    touched p -> Q d -> Q (reconcile d (p, meta, vec, h)).
Proof.
  intros d p meta vec h Hp Hd. unfold reconcile.
  destruct (get_image_by_hash d h) as [existing|].
  - destruct (negb (filepath existing =? p)%string).
    + now apply Q_rename.
    + now apply Q_upsert.
  - now apply Q_upsert.
Qed.

Lemma Q_fold_reconcile :
  forall items d,
    (forall p meta vec h, In (p, meta, vec, h) items -> touched p) ->
    Q d -> Q (fold_left (@reconcile FeatureVector) items d).
Proof.
  induction items as [|[[[p meta] vec] h] items IH]; intros d Hitems Hd.
  - exact Hd.
  - simpl. apply IH.
    + intros p' m' v' h' Hin. eapply Hitems. right. exact Hin.
    + apply Q_reconcile; [|exact Hd]. eapply Hitems. left. reflexivity.
Qed.

Lemma Q_index_files :
  forall self fs filepaths ms w,
    Forall touched filepaths ->
    Q (db w) -> Q (db (_index_files self fs filepaths ms w)).
Proof.
  intros self fs filepaths ms w Hall Hw.
  destruct (index_files_cases self fs filepaths ms w)
    as (images & filtered & hashes & Hload & _ & _ & [[_ Hdb]|[fe [_ Hdb]]]);
    rewrite Hdb; [exact Hw|].
  apply Q_fold_reconcile; [|exact Hw].
  intros p meta vec h Hin. apply zip4_In in Hin. destruct Hin as [Hin _].
  rewrite Forall_forall in Hall. apply Hall.
  eapply load_images_filtered_In; eassumption.
Qed.

Lemma Q_walk_step :
  forall self fs st e,
    (get_image_meta e <> None -> touched (path e)) ->
    Q (db (l_world st)) /\ Forall touched (batch st) ->
    Q (db (l_world (walk_step self fs st e)))
    /\ Forall touched (batch (walk_step self fs st e)).
Proof.
  intros self fs st e He [Hdb Hbatch]. unfold walk_step.
  destruct (get_image_meta e) as [meta|]; [|split; assumption].
  assert (Ht : touched (path e)) by (apply He; discriminate).
  set (w1 := if images_processed st mod DB_IMAGES_BEFORE_COMMIT =? 0
             then commit (l_world st) else l_world st).
  assert (Hw1 : db w1 = db (l_world st))
    by (unfold w1; destruct (_ =? 0); reflexivity).
  match goal with
  | |- context [if ?c then mkLoop _ _ _ _ else _] => destruct c
  end.
  - split; cbn [l_world batch]; [|exact Hbatch].
    rewrite db_mutate, Hw1. now apply Q_unflag.
  - assert (Hb' : Forall touched (batch st ++ [path e])).
    { apply Forall_app. split; [exact Hbatch|]. constructor; [exact Ht|constructor]. }
    destruct (Z.of_nat (List.length (batch st ++ [path e]))
              >=? _indexing_batch_size self).
    + split; cbn [l_world batch]; [|constructor].
      apply Q_index_files; [exact Hb'|]. now rewrite Hw1.
    + split; cbn [l_world batch]; [now rewrite Hw1 | exact Hb'].
Qed.

Lemma Q_walk_loop :
  forall self fs entries st,
    (forall e, In e entries -> get_image_meta e <> None -> touched (path e)) ->
    Q (db (l_world st)) /\ Forall touched (batch st) ->
    Q (db (l_world (walk_loop self fs st entries)))
    /\ Forall touched (batch (walk_loop self fs st entries)).
Proof.
  intros self fs entries.
  induction entries as [|e rest IH]; intros st Hall Hst.
  - exact Hst.
  - simpl. apply IH.
    + intros e' Hin. apply Hall. now right.
    + apply Q_walk_step; [|exact Hst]. apply Hall. now left.
Qed.

Lemma Q_flush_rest :
  forall self fs st,
    Q (db (l_world st)) /\ Forall touched (batch st) ->
    Q (db (flush_rest self fs st)).
Proof.
  intros self fs st [Hdb Hbatch]. unfold flush_rest.
  destruct (negb (List.length (batch st) =? 0)%nat).
  - now apply Q_index_files.
  - exact Hdb.
Qed.

(** The store on which the sweep of a run works. *)
Lemma Q_before_sweep :
  forall self fs directory w,
    (forall e, In e (walk fs directory (_exclude_dir_regex self)) ->
               get_image_meta e <> None -> touched (path e)) ->
    Q (db (mark sep directory w)) ->
    Q (db (flush_rest self fs
             (walk_loop self fs (mkLoop (mark sep directory w) 0 [] [])
                (walk fs directory (_exclude_dir_regex self))))).
Proof.
  intros self fs directory w Hall Hmark.
  apply Q_flush_rest. apply Q_walk_loop; [exact Hall|].
  split; [exact Hmark | constructor].
Qed.

End StoreInvariant.

(** *** The batch flush *)

(** C7: when the extraction call of a batch fails, the flush does nothing
    but make that call: the store and what is committed are as before,
    whatever the batch; and the iteration of the loop that flushed leaves
    a state, its batch empty, from which the loop goes on over the entries
    that follow. *)
Theorem failed_extraction_abandons_batch :
  forall self fs filepaths images filtered_paths hashes,
    load_images fs filepaths = (images, filtered_paths, hashes) ->
    compute_image_features (_model self) images = None ->
    (forall ms w,
        _index_files self fs filepaths ms w = log_model_call images w
        /\ db (_index_files self fs filepaths ms w) = db w
        /\ committed (_index_files self fs filepaths ms w) = committed w)
    /\ (forall st e meta rest,
           get_image_meta e = Some meta ->
           match get_image (db (l_world st)) (path e) with
           | Some im => is_image_meta_equal im meta
           | None => false
           end = false ->
           batch st ++ [path e] = filepaths ->
           (Z.of_nat (List.length filepaths) >=? _indexing_batch_size self)
           = true ->
           exists st',
             walk_loop self fs st (e :: rest) = walk_loop self fs st' rest
             /\ db (l_world st') = db (l_world st)
             /\ batch st' = [] /\ metas st' = []
             /\ images_processed st' = images_processed st + 1).
Proof.
  intros self fs filepaths images filtered hashes Hload Hfail.
  assert (Hflush : forall ms w,
             _index_files self fs filepaths ms w = log_model_call images w).
  { intros ms w. unfold _index_files. rewrite Hload, Hfail. reflexivity. }
  split.
  - intros ms w. rewrite Hflush. repeat split.
  - intros st e meta rest Hmeta Hchanged Hbatch Hfull.
    exists (walk_step self fs st e). split; [reflexivity|].
    unfold walk_step. rewrite Hmeta, Hchanged, Hbatch, Hfull.
    cbn [l_world batch metas images_processed].
    rewrite Hflush. cbn [log_model_call db].
    repeat split. destruct (_ =? 0); reflexivity.
Qed.

(** *** Records of files that are gone *)

(** A record whose path is under the root and is not met by the traversal
    is still flagged when the sweep comes, and the sweep deletes it. *)
Lemma unscanned_path_is_swept :
  forall self fs directory w c,
    under sep directory c = true ->
    (forall e, In e (walk fs directory (_exclude_dir_regex self)) ->
               path e <> c) ->
    forall r,
      In r (db (finish sep self fs directory
                  (walk_loop self fs (mkLoop (mark sep directory w) 0 [] [])
                     (walk fs directory (_exclude_dir_regex self))))) ->
      filepath r <> c.
Proof.
  intros self fs directory w c Hunder Hwalk r Hin Hpath.
  unfold finish in Hin. rewrite db_mutate in Hin.
  unfold flag_indexing_images_in_a_dir_as_deleted in Hin.
  apply filter_In in Hin. destruct Hin as [Hin Hkeep].
  cbn [commit db] in Hin.
  assert (HQ : forall r, In r (db (flush_rest self fs
              (walk_loop self fs (mkLoop (mark sep directory w) 0 [] [])
                 (walk fs directory (_exclude_dir_regex self))))) ->
            filepath r = c -> indexing r = true).
  { clear r Hin Hkeep Hpath.
    apply (@Q_before_sweep (fun p => p <> c)
             (fun d => forall r, In r d -> filepath r = c -> indexing r = true)).
    - intros d p Hp Hd r Hin Hpath. unfold remove_indexing_flag in Hin.
      apply in_map_iff in Hin. destruct Hin as (r0 & <- & Hin0).
      destruct (filepath r0 =? p)%string eqn:E.
      + apply String.eqb_eq in E. simpl in Hpath. congruence.
      + now apply Hd.
    - intros d n Hp Hd r Hin Hpath. unfold upsert_image in Hin.
      destruct (existsb _ d).
      + apply in_map_iff in Hin. destruct Hin as (r0 & <- & Hin0).
        destruct (filepath r0 =? n_filepath n)%string.
        * simpl in Hpath. congruence.
        * now apply Hd.
      + apply in_app_or in Hin. destruct Hin as [Hin|[<-|[]]].
        * now apply Hd.
        * simpl in Hpath. congruence.
    - intros d old p Hp Hd r Hin Hpath. unfold update_image_filepath in Hin.
      apply in_map_iff in Hin. destruct Hin as (r0 & <- & Hin0).
      destruct (filepath r0 =? old)%string.
      + simpl in Hpath. congruence.
      + now apply Hd.
    - intros e He _. now apply Hwalk.
    - intros r0 Hin0 Hpath0. unfold mark in Hin0.
      rewrite !db_mutate in Hin0.
      unfold flag_images_in_a_dir_as_indexing,
        remove_indexing_flag_from_all_images in Hin0.
      apply in_map_iff in Hin0. destruct Hin0 as (r1 & <- & Hin1).
      apply in_map_iff in Hin1. destruct Hin1 as (r2 & <- & Hin2).
      simpl in *. destruct (under sep directory (filepath r2)) eqn:E.
      + reflexivity.
      + simpl in Hpath0. congruence. }
  rewrite Hpath, Hunder, (HQ r Hin Hpath) in Hkeep. discriminate.
Qed.

(** C6: a store holds a record for a path under the root; the file is no
    longer on disk, so the traversal does not meet the path; after a run
    of [ensure_index] on the root that completes, no record of the store
    has that path. *)
Theorem deleted_file_is_forgotten :
  forall self fs directory w w' c r0,
    In r0 (db w) -> filepath r0 = c ->
    under sep directory c = true ->
    (forall e, In e (walk fs directory (_exclude_dir_regex self)) ->
               path e <> c) ->
    ensure_index sep self fs directory w = (Ok tt, w') ->
    forall r, In r (db w') -> filepath r <> c.
Proof.
  intros self fs directory w w' c r0 _ _ Hunder Hwalk Hrun r Hin.
  unfold ensure_index in Hrun.
  destruct (images_processed _ =? 0); [discriminate|].
  injection Hrun as <-.
  eapply unscanned_path_is_swept; eassumption.
Qed.

(** *** What a completed run leaves in the store *)

Lemma ensure_index_completed :
  forall self fs directory w w',
    ensure_index sep self fs directory w = (Ok tt, w') ->
    w' = finish sep self fs directory
           (walk_loop self fs (mkLoop (mark sep directory w) 0 [] [])
              (walk fs directory (_exclude_dir_regex self)))
    /\ images_processed
         (walk_loop self fs (mkLoop (mark sep directory w) 0 [] [])
            (walk fs directory (_exclude_dir_regex self))) <> 0.
Proof.
  intros self fs directory w w' H. unfold ensure_index in H.
  destruct (images_processed _ =? 0) eqn:E; [discriminate|].
  injection H as <-. split; [reflexivity|]. now apply Z.eqb_neq.
Qed.

Lemma db_finish :
  forall self fs directory st,
    db (finish sep self fs directory st)
    = flag_indexing_images_in_a_dir_as_deleted sep
        (db (flush_rest self fs st)) directory.
Proof. intros. unfold finish. rewrite db_mutate. reflexivity. Qed.

Lemma In_mark :
  forall directory w r,
    In r (db (mark sep directory w)) ->
    exists r0, In r0 (db w)
               /\ r = set_indexing (under sep directory (filepath r0)) r0.
Proof.
  intros directory w r Hin. unfold mark in Hin. rewrite !db_mutate in Hin.
  unfold flag_images_in_a_dir_as_indexing,
    remove_indexing_flag_from_all_images in Hin.
  apply in_map_iff in Hin. destruct Hin as (r1 & <- & Hin1).
  apply in_map_iff in Hin1. destruct Hin1 as (r0 & <- & Hin0).
  exists r0. split; [exact Hin0|]. simpl.
  destruct (under sep directory (filepath r0)); reflexivity.
Qed.



(** *** A run over a tree that the store already describes *)


Lemma walk_step_skipped :
  forall self fs st e,
    get_image_meta e = None -> walk_step self fs st e = st.
Proof. intros self fs st e H. unfold walk_step. now rewrite H. Qed.



Lemma db_mark :
  forall directory w,
    db (mark sep directory w)
    = map (fun r => set_indexing (under sep directory (filepath r)) r) (db w).
Proof.
  intros directory w. unfold mark. rewrite !db_mutate.
  unfold flag_images_in_a_dir_as_indexing,
    remove_indexing_flag_from_all_images.
  rewrite map_map. apply map_ext. intros r. simpl.
  destruct (under sep directory (filepath r)); reflexivity.
Qed.

Lemma model_calls_mark :
  forall directory w, model_calls (mark sep directory w) = model_calls w.
Proof. reflexivity. Qed.

(** The number of entries processed does not depend on the store. *)
Lemma images_processed_walk_loop :
  forall self fs entries st,
    images_processed (walk_loop self fs st entries)
    = fold_left (fun n e => match get_image_meta e with
                            | Some _ => n + 1
                            | None => n
                            end) entries (images_processed st).
Proof.
  intros self fs entries.
  induction entries as [|e rest IH]; intros st; [reflexivity|].
  cbn [walk_loop fold_left].
  fold (walk_loop self fs (walk_step self fs st e) rest). rewrite IH.
  f_equal. unfold walk_step.
  destruct (get_image_meta e); [|reflexivity].
  repeat match goal with
         | |- context [if ?c then mkLoop _ _ _ _ else _] => destruct c
         end; reflexivity.
Qed.



(** *** Runs that stop early *)






Lemma images_processed_grows :
  forall entries (n : Z),
    n <= fold_left (fun n e => match get_image_meta e with
                               | Some _ => n + 1
                               | None => n
                               end) entries n.
Proof.
  induction entries as [|e rest IH]; intros n; simpl; [lia|].
  destruct (get_image_meta e).
  - specialize (IH (n + 1)). lia.
  - apply IH.
Qed.




(** *** Runs in which every file decodes and no digest is shared *)

Lemma meta_equal_true :
  forall r meta,
    is_image_meta_equal r meta = true -> record_meta r = meta.
Proof.
  intros r [m sz]. unfold is_image_meta_equal, record_meta. simpl.
  destruct (m =? i_modified_at r) eqn:E1; simpl; [|discriminate].
  destruct (sz =? i_size r) eqn:E2; simpl; [|discriminate].
  intros _. apply Z.eqb_eq in E1, E2. congruence.
Qed.

Lemma get_image_NoDup :
  forall d r,
    NoDup (map (@filepath FeatureVector) d) -> In r d ->
    get_image d (filepath r) = Some r.
Proof.
  unfold get_image. induction d as [|a d IH]; intros r Hnd Hin.
  - contradiction.
  - simpl in *. inversion Hnd as [|x l Hnotin Hnd']; subst.
    destruct (filepath a =? filepath r)%string eqn:E.
    + destruct Hin as [->|Hin]; [reflexivity|].
      apply String.eqb_eq in E. exfalso. apply Hnotin. rewrite E.
      now apply in_map.
    + destruct Hin as [->|Hin].
      * rewrite String.eqb_refl in E. discriminate.
      * now apply IH.
Qed.

Lemma zip4_aligned :
  forall (A B C D : Type) (P : A -> B -> Prop) (R : A -> D -> Prop)
         (la : list A) (lb : list B) (lc : list C) (ld : list D),
    Forall2 P la lb -> Forall2 R la ld ->
    forall a b c e, In (a, b, c, e) (zip4 la lb lc ld) -> P a b /\ R a e.
Proof.
  intros A B C D P R la lb lc ld HP. revert lc ld.
  induction HP as [|a0 b0 la lb Hab HP IH]; intros lc ld HR a b c e Hin.
  - contradiction.
  - inversion HR as [|a1 e0 la' ld' Hae HR']; subst.
    destruct lc as [|c0 lc]; [contradiction|].
    destruct Hin as [Hin|Hin].
    + injection Hin as <- <- <- <-. now split.
    + eapply IH; eassumption.
Qed.

Lemma Forall2_In_left :
  forall (A B : Type) (P : A -> B -> Prop) (la : list A) (lb : list B) a,
    Forall2 P la lb -> In a la -> exists b, In b lb /\ P a b.
Proof.
  intros A B P la lb a H. induction H as [|a0 b0 la lb Hab H IH]; intros Hin.
  - contradiction.
  - destruct Hin as [<-|Hin].
    + exists b0. split; [now left | exact Hab].
    + destruct (IH Hin) as (b & Hb & Hp). exists b. split; [now right | exact Hp].
Qed.

Section AlignedRun.

Variable self : RClip DecodedImage FeatureVector Score.
Variable fs : FileSystem DecodedImage.
Variable directory : string.
Variable entries : list DirEntry.

Hypothesis decodable :
  forall e, In e entries -> get_image_meta e <> None ->
    exists image h, image_open fs (path e) = Opened image
                    /\ file_md5 fs (path e) = Some h.

Hypothesis digests_differ :
  forall e1 e2 h, In e1 entries -> In e2 entries ->
    file_md5 fs (path e1) = Some h -> file_md5 fs (path e2) = Some h ->
    path e1 = path e2.

Lemma aligned_unflag :
  forall d p im meta,
    aligned_store sep fs entries directory d ->
    get_image d p = Some im ->
    is_image_meta_equal im meta = true ->
    scanned_as entries p meta ->
    aligned_store sep fs entries directory (remove_indexing_flag d p).
Proof.
  intros d p im meta (Hnd & Hhash & Hmeta) Hget Heq Hscan.
  unfold remove_indexing_flag. repeat split.
  - rewrite map_map.
    rewrite (map_ext _ (@filepath FeatureVector)); [exact Hnd|].
    intros r. destruct (filepath r =? p)%string; reflexivity.
  - intros r e Hin He Hmd5. apply in_map_iff in Hin.
    destruct Hin as (r0 & <- & Hin0).
    destruct (filepath r0 =? p)%string; simpl in *; now apply Hhash.
  - intros r Hin Hu Hflag. apply in_map_iff in Hin.
    destruct Hin as (r0 & <- & Hin0).
    destruct (filepath r0 =? p)%string eqn:E.
    + apply String.eqb_eq in E.
      pose proof (get_image_NoDup d r0 Hnd Hin0) as Hr0.
      rewrite E, Hget in Hr0. injection Hr0 as ->.
      change (scanned_as entries (filepath r0) (record_meta r0)).
      now rewrite (meta_equal_true _ _ Heq), E.
    + now apply Hmeta.
Qed.

Lemma aligned_upsert :
  forall d p meta vec h,
    aligned_store sep fs entries directory d ->
    scanned_as entries p meta ->
    file_md5 fs p = Some h ->
    aligned_store sep fs entries directory
      (upsert_image d (mkNewImage p (modified_at meta) (size meta) vec h)).
Proof.
  intros d p meta vec h (Hnd & Hhash & Hmeta) Hscan Hmd5.
  assert (Hfresh_hash : forall e, In e entries ->
            file_md5 fs (path e) = Some h -> p = path e).
  { intros e He Hh. destruct Hscan as (e0 & He0 & <- & _).
    eapply digests_differ; eassumption. }
  assert (Hfresh_meta :
            scanned_as entries p
              (record_meta
                 (fresh (mkNewImage p (modified_at meta) (size meta) vec h)))).
  { unfold record_meta, fresh. simpl. now destruct meta. }
  unfold upsert_image. cbn [n_filepath].
  destruct (existsb (fun r => (filepath r =? p)%string) d) eqn:Hex.
  - repeat split.
    + rewrite map_map.
      rewrite (map_ext _ (@filepath FeatureVector)); [exact Hnd|].
      intros r. destruct (filepath r =? p)%string eqn:E; [|reflexivity].
      apply String.eqb_eq in E. now rewrite E.
    + intros r e Hin He Hh. apply in_map_iff in Hin.
      destruct Hin as (r0 & <- & Hin0).
      destruct (filepath r0 =? p)%string; [|now apply Hhash].
      simpl in *. now apply Hfresh_hash.
    + intros r Hin Hu Hflag. apply in_map_iff in Hin.
      destruct Hin as (r0 & <- & Hin0).
      destruct (filepath r0 =? p)%string; [exact Hfresh_meta|].
      now apply Hmeta.
  - repeat split.
    + rewrite map_app. apply NoDup_app; [exact Hnd | | ].
      * simpl. constructor; [intros [] | constructor].
      * intros q Hq [<-|[]]. simpl in Hq.
        apply in_map_iff in Hq. destruct Hq as (r0 & Hp0 & Hin0).
        assert (existsb (fun r => (filepath r =? p)%string) d = true).
        { apply existsb_exists. exists r0. split; [exact Hin0|].
          now apply String.eqb_eq. }
        congruence.
    + intros r e Hin He Hh. apply in_app_or in Hin.
      destruct Hin as [Hin|[<-|[]]]; [now apply Hhash|].
      simpl in *. now apply Hfresh_hash.
    + intros r Hin Hu Hflag. apply in_app_or in Hin.
      destruct Hin as [Hin|[<-|[]]]; [now apply Hmeta | exact Hfresh_meta].
Qed.

(** In an aligned store the lookup by digest finds no other path: the
    rename branch of the flush is not taken. *)
Lemma reconcile_upserts :
  forall d p meta vec h,
    aligned_store sep fs entries directory d ->
    scanned_as entries p meta ->
    file_md5 fs p = Some h ->
    reconcile d (p, meta, vec, h)
    = upsert_image d (mkNewImage p (modified_at meta) (size meta) vec h).
Proof.
  intros d p meta vec h (_ & Hhash & _) (e & He & Hpath & _) Hmd5.
  unfold reconcile.
  destruct (get_image_by_hash d h) as [existing|] eqn:Hfind;
    [|reflexivity].
  apply find_some in Hfind. destruct Hfind as [Hin Hh].
  apply String.eqb_eq in Hh.
  assert (Hp : filepath existing = p).
  { rewrite <- Hpath. apply Hhash; [exact Hin | exact He|].
    now rewrite Hpath, Hh. }
  rewrite Hp, String.eqb_refl. reflexivity.
Qed.

Lemma aligned_fold_reconcile :
  forall items d,
    aligned_store sep fs entries directory d ->
    (forall p meta vec h, In (p, meta, vec, h) items ->
       scanned_as entries p meta /\ file_md5 fs p = Some h) ->
    aligned_store sep fs entries directory
      (fold_left (@reconcile FeatureVector) items d).
Proof.
  induction items as [|[[[p meta] vec] h] items IH]; intros d Hd Hitems.
  - exact Hd.
  - cbn [fold_left].
    destruct (Hitems p meta vec h (or_introl eq_refl)) as [Hs Hh].
    apply IH.
    + rewrite (reconcile_upserts vec Hd Hs Hh). now apply aligned_upsert.
    + intros p' m' v' h' Hin. apply (Hitems p' m' v' h'). now right.
Qed.

Lemma load_images_decodable :
  forall filepaths,
    (forall p, In p filepaths ->
       exists image h, image_open fs p = Opened image
                       /\ file_md5 fs p = Some h) ->
    exists images hashes,
      load_images fs filepaths = (images, filepaths, hashes)
      /\ Forall2 (fun p h => file_md5 fs p = Some h) filepaths hashes.
Proof.
  induction filepaths as [|p rest IH]; intros Hall.
  - exists [], []. split; [reflexivity | constructor].
  - destruct IH as (images & hashes & Hload & Hh).
    { intros q Hq. apply Hall. now right. }
    destruct (Hall p (or_introl eq_refl)) as (image & h & Hopen & Hmd5).
    exists (image :: images), (h :: hashes). split.
    + simpl. rewrite Hload, Hopen, Hmd5. reflexivity.
    + constructor; assumption.
Qed.

Lemma aligned_index_files :
  forall filepaths ms w,
    aligned_store sep fs entries directory (db w) ->
    Forall2 (scanned_as entries) filepaths ms ->
    aligned_store sep fs entries directory
      (db (_index_files self fs filepaths ms w)).
Proof.
  intros filepaths ms w Hd Hbatch.
  destruct (load_images_decodable filepaths) as (images & hashes & Hload & Hh).
  { intros p Hp.
    destruct (@Forall2_In_left _ _ _ _ _ p Hbatch Hp)
      as (meta & _ & (e & He & <- & Hmeta)).
    apply decodable; [exact He | congruence]. }
  destruct (index_files_cases self fs filepaths ms w)
    as (images' & filtered & hashes' & Hload' & _ & _
        & [[_ Hdb]|[features [_ Hdb]]]);
    rewrite Hdb; [exact Hd|].
  rewrite Hload in Hload'. injection Hload' as <- <- <-.
  apply aligned_fold_reconcile; [exact Hd|].
  intros p meta vec h Hin.
  exact (@zip4_aligned _ _ _ _ _ _ _ _ _ _ Hbatch Hh p meta vec h Hin).
Qed.

Lemma aligned_walk_step :
  forall st e,
    In e entries ->
    aligned_store sep fs entries directory (db (l_world st))
    /\ Forall2 (scanned_as entries) (batch st) (metas st) ->
    aligned_store sep fs entries directory
      (db (l_world (walk_step self fs st e)))
    /\ Forall2 (scanned_as entries) (batch (walk_step self fs st e))
                (metas (walk_step self fs st e)).
Proof.
  intros st e He [Hd Hbatch]. unfold walk_step.
  destruct (get_image_meta e) as [meta|] eqn:Hmeta; [|now split].
  assert (Hscan : scanned_as entries (path e) meta)
    by (exists e; repeat split; assumption).
  set (w1 := if images_processed st mod DB_IMAGES_BEFORE_COMMIT =? 0
             then commit (l_world st) else l_world st).
  assert (Hw1 : db w1 = db (l_world st))
    by (unfold w1; destruct (_ =? 0); reflexivity).
  assert (Hb' : Forall2 (scanned_as entries) (batch st ++ [path e])
                        (metas st ++ [meta])).
  { apply Forall2_app; [exact Hbatch|].
    constructor; [exact Hscan | constructor]. }
  assert (Hbatched :
            let st' :=
              if Z.of_nat (List.length (batch st ++ [path e]))
                 >=? _indexing_batch_size self
              then mkLoop (_index_files self fs (batch st ++ [path e])
                             (metas st ++ [meta]) w1)
                          (images_processed st + 1) [] []
              else mkLoop w1 (images_processed st + 1)
                          (batch st ++ [path e]) (metas st ++ [meta]) in
            aligned_store sep fs entries directory (db (l_world st'))
            /\ Forall2 (scanned_as entries) (batch st') (metas st')).
  { destruct (Z.of_nat (List.length (batch st ++ [path e]))
              >=? _indexing_batch_size self);
      split; cbn [l_world batch metas].
    - apply aligned_index_files; [now rewrite Hw1 | exact Hb'].
    - constructor.
    - now rewrite Hw1.
    - exact Hb'. }
  destruct (get_image (db (l_world st)) (path e)) as [im|] eqn:Hget;
    [|exact Hbatched].
  destruct (is_image_meta_equal im meta) eqn:Heq; [|exact Hbatched].
  split; cbn [l_world batch metas]; [|exact Hbatch].
  rewrite db_mutate, Hw1. eapply aligned_unflag; eassumption.
Qed.

Lemma aligned_walk_loop :
  forall scanned st,
    (forall e, In e scanned -> In e entries) ->
    aligned_store sep fs entries directory (db (l_world st))
    /\ Forall2 (scanned_as entries) (batch st) (metas st) ->
    aligned_store sep fs entries directory
      (db (l_world (walk_loop self fs st scanned)))
    /\ Forall2 (scanned_as entries) (batch (walk_loop self fs st scanned))
                (metas (walk_loop self fs st scanned)).
Proof.
  induction scanned as [|e rest IH]; intros st Hsub Hst; [exact Hst|].
  simpl. apply IH.
  - intros e' Hin. apply Hsub. now right.
  - apply aligned_walk_step; [|exact Hst]. apply Hsub. now left.
Qed.

Lemma aligned_mark :
  forall w,
    NoDup (map (@filepath FeatureVector) (db w)) ->
    (forall r e, In r (db w) -> In e entries ->
                 file_md5 fs (path e) = Some (hash r) ->
                 filepath r = path e) ->
    aligned_store sep fs entries directory (db (mark sep directory w)).
Proof.
  intros w Hnd Hhash. rewrite db_mark. repeat split.
  - rewrite map_map. exact Hnd.
  - intros r e Hin He Hh. apply in_map_iff in Hin.
    destruct Hin as (r0 & <- & Hin0).
    exact (Hhash r0 e Hin0 He Hh).
  - intros r Hin Hu Hflag. apply in_map_iff in Hin.
    destruct Hin as (r0 & <- & Hin0). simpl in *. congruence.
Qed.

End AlignedRun.

(** C3, amended: after a run of [ensure_index] that completes, no record
    under the directory is flagged.  If moreover the store had one record
    per path, every entry whose metadata can be read decodes and has a
    digest, no two scanned paths share a digest, and a record that holds
    the digest of a scanned file is the record of that file, then every
    record under the directory holds the metadata that the traversal read
    for its path. *)
Theorem completed_run_flags_and_metadata :
  forall self fs directory w w',
    ensure_index sep self fs directory w = (Ok tt, w') ->
    (forall r, In r (db w') -> under sep directory (filepath r) = true ->
               indexing r = false)
    /\ (NoDup (map (@filepath FeatureVector) (db w)) ->
        (forall e, In e (walk fs directory (_exclude_dir_regex self)) ->
           get_image_meta e <> None ->
           exists image h, image_open fs (path e) = Opened image
                           /\ file_md5 fs (path e) = Some h) ->
        (forall e1 e2 h,
           In e1 (walk fs directory (_exclude_dir_regex self)) ->
           In e2 (walk fs directory (_exclude_dir_regex self)) ->
           file_md5 fs (path e1) = Some h ->
           file_md5 fs (path e2) = Some h ->
           path e1 = path e2) ->
        (forall r e, In r (db w) ->
           In e (walk fs directory (_exclude_dir_regex self)) ->
           file_md5 fs (path e) = Some (hash r) ->
           filepath r = path e) ->
        forall r, In r (db w') -> under sep directory (filepath r) = true ->
          scanned_as (walk fs directory (_exclude_dir_regex self))
                     (filepath r) (record_meta r)).
Proof.
  intros self fs directory w w' Hrun.
  apply ensure_index_completed in Hrun. destruct Hrun as [-> _].
  assert (Hflag : forall r,
             In r (db (finish sep self fs directory
                         (walk_loop self fs
                            (mkLoop (mark sep directory w) 0 [] [])
                            (walk fs directory (_exclude_dir_regex self))))) ->
             under sep directory (filepath r) = true -> indexing r = false).
  { intros r Hin Hu. rewrite db_finish in Hin. apply filter_In in Hin.
    destruct Hin as [_ Hkeep]. rewrite Hu in Hkeep.
    now apply negb_true_iff in Hkeep. }
  split; [exact Hflag|].
  intros Hnd Hdec Hdiff Hhash r Hin Hu.
  pose proof (Hflag r Hin Hu) as Hr.
  rewrite db_finish in Hin. apply filter_In in Hin. destruct Hin as [Hin _].
  destruct (@aligned_walk_loop self fs directory
              (walk fs directory (_exclude_dir_regex self)) Hdec Hdiff
              (walk fs directory (_exclude_dir_regex self))
              (mkLoop (mark sep directory w) 0 [] []))
    as [Hd Hbatch].
  { intros e He. exact He. }
  { split; [|constructor]. cbn [l_world]. now apply aligned_mark. }
  assert (Hfinal : aligned_store sep fs
                     (walk fs directory (_exclude_dir_regex self)) directory
                     (db (flush_rest self fs
                            (walk_loop self fs
                               (mkLoop (mark sep directory w) 0 [] [])
                               (walk fs directory
                                  (_exclude_dir_regex self)))))).
  { unfold flush_rest. destruct (negb _); [|exact Hd].
    now apply aligned_index_files. }
  destruct Hfinal as (_ & _ & Hmeta). now apply Hmeta.
Qed.

(** *** A file that changed its name *)


(** The four ways an iteration of the loop can go. *)
Lemma walk_step_cases :
  forall self fs st e,
    (get_image_meta e = None /\ walk_step self fs st e = st)
    \/ (exists meta,
          get_image_meta e = Some meta
          /\ db (l_world (walk_step self fs st e))
             = remove_indexing_flag (db (l_world st)) (path e)
          /\ batch (walk_step self fs st e) = batch st
          /\ metas (walk_step self fs st e) = metas st
          /\ model_calls (l_world (walk_step self fs st e))
             = model_calls (l_world st))
    \/ (exists meta,
          get_image_meta e = Some meta
          /\ db (l_world (walk_step self fs st e)) = db (l_world st)
          /\ batch (walk_step self fs st e) = batch st ++ [path e]
          /\ metas (walk_step self fs st e) = metas st ++ [meta]
          /\ model_calls (l_world (walk_step self fs st e))
             = model_calls (l_world st))
    \/ (exists meta w1,
          get_image_meta e = Some meta
          /\ db w1 = db (l_world st)
          /\ model_calls w1 = model_calls (l_world st)
          /\ l_world (walk_step self fs st e)
             = _index_files self fs (batch st ++ [path e])
                 (metas st ++ [meta]) w1
          /\ batch (walk_step self fs st e) = []
          /\ metas (walk_step self fs st e) = []).
Proof.
  intros self fs st e. unfold walk_step.
  destruct (get_image_meta e) as [meta|]; [|left; now split].
  right.
  set (w1 := if images_processed st mod DB_IMAGES_BEFORE_COMMIT =? 0
             then commit (l_world st) else l_world st).
  assert (Hdb : db w1 = db (l_world st))
    by (unfold w1; destruct (_ =? 0); reflexivity).
  assert (Hcalls : model_calls w1 = model_calls (l_world st))
    by (unfold w1; destruct (_ =? 0); reflexivity).
  match goal with
  | |- context [if ?c then mkLoop _ _ _ _ else _] => destruct c
  end.
  - left. exists meta. cbn [l_world batch metas].
    rewrite db_mutate, model_calls_mutate, Hdb, Hcalls. repeat split.
  - right.
    destruct (Z.of_nat (List.length (batch st ++ [path e]))
              >=? _indexing_batch_size self).
    + right. exists meta, w1. repeat split; assumption.
    + left. exists meta. repeat split; assumption.
Qed.

Section Renamed.

Variable self : RClip DecodedImage FeatureVector Score.
Variable fs : FileSystem DecodedImage.
Variable b : string.
Variable image : DecodedImage.
Variable calls0 : list (list DecodedImage).

Hypothesis b_opens : image_open fs b = Opened image.





End Renamed.



(** *** Further properties of the change detector and of the run *)

(** X1: [is_image_meta_equal] answers true exactly when the record and the
    metadata agree on [modified_at] and on [size]; nothing else of the
    record is looked at. *)
Theorem is_image_meta_equal_iff :
  forall r meta,
    is_image_meta_equal r meta = true
    <-> (i_modified_at r = modified_at meta /\ i_size r = size meta).
Proof.
  intros r [m sz]. unfold is_image_meta_equal. simpl.
  destruct (Z.eqb_spec m (i_modified_at r)) as [E1|E1];
    destruct (Z.eqb_spec sz (i_size r)) as [E2|E2]; simpl;
    split; intros H; try discriminate; try reflexivity;
    try (destruct H; congruence); split; congruence.
Qed.

Lemma walk_loop_all_skipped :
  forall self fs entries st,
    (forall e, In e entries -> get_image_meta e = None) ->
    walk_loop self fs st entries = st.
Proof.
  intros self fs entries.
  induction entries as [|e rest IH]; intros st H; [reflexivity|].
  cbn [walk_loop fold_left].
  rewrite (walk_step_skipped self fs st e (H e (or_introl eq_refl))).
  apply IH. intros e' Hin. apply H. now right.
Qed.

Lemma count_readable :
  forall entries (n : Z),
    if existsb (fun e => match get_image_meta e with
                         | Some _ => true
                         | None => false
                         end) entries
    then n < fold_left (fun n e => match get_image_meta e with
                                   | Some _ => n + 1
                                   | None => n
                                   end) entries n
    else forall e, In e entries -> get_image_meta e = None.
Proof.
  induction entries as [|e rest IH]; intros n; simpl.
  - intros e [].
  - destruct (get_image_meta e) eqn:Hm; simpl.
    + pose proof (images_processed_grows rest (n + 1)). lia.
    + specialize (IH n). destruct (existsb _ rest).
      * exact IH.
      * intros e' [<-|Hin]; [exact Hm | now apply IH].
Qed.

(** A run whose traversal yields no entry with readable metadata stops at
    the division that follows the loop. *)
Lemma run_without_readable_entry :
  forall self fs directory w,
    (forall e, In e (walk fs directory (_exclude_dir_regex self)) ->
               get_image_meta e = None) ->
    ensure_index sep self fs directory w
    = (Raise ZeroDivisionError, mark sep directory w).
Proof.
  intros self fs directory w Hnone. unfold ensure_index.
  rewrite (walk_loop_all_skipped self fs _ _ Hnone). reflexivity.
Qed.

(** X2: a run returns when the traversal yields at least one entry whose
    metadata can be read.  Otherwise it raises [ZeroDivisionError] right
    after the loop: the world is the one the marking left, so nothing is
    flushed and nothing is swept. *)
Theorem ensure_index_needs_a_readable_entry :
  forall self fs directory w,
    if existsb (fun e => match get_image_meta e with
                         | Some _ => true
                         | None => false
                         end)
               (walk fs directory (_exclude_dir_regex self))
    then fst (ensure_index sep self fs directory w) = Ok tt
    else ensure_index sep self fs directory w
         = (Raise ZeroDivisionError, mark sep directory w).
Proof.
  intros self fs directory w.
  pose proof (count_readable (walk fs directory (_exclude_dir_regex self)) 0)
    as Hcount.
  destruct (existsb _ (walk fs directory (_exclude_dir_regex self))).
  - unfold ensure_index. rewrite images_processed_walk_loop.
    cbn [images_processed].
    destruct (Z.eqb_spec
                (fold_left (fun n e => match get_image_meta e with
                                       | Some _ => n + 1
                                       | None => n
                                       end)
                   (walk fs directory (_exclude_dir_regex self)) 0) 0);
      [lia | reflexivity].
  - exact (run_without_readable_entry self fs directory w Hcount).
Qed.

(** X3: the entries whose metadata cannot be read leave no trace: the loop
    over a traversal ends in the state it reaches over the readable
    entries alone. *)
Theorem unreadable_entries_are_skipped :
  forall self fs entries st,
    walk_loop self fs st entries
    = walk_loop self fs st
        (filter (fun e => match get_image_meta e with
                          | Some _ => true
                          | None => false
                          end) entries).
Proof.
  intros self fs entries.
  induction entries as [|e rest IH]; intros st; [reflexivity|].
  cbn [walk_loop fold_left filter].
  destruct (get_image_meta e) eqn:Hm.
  - cbn [walk_loop fold_left]. apply IH.
  - rewrite (walk_step_skipped self fs st e Hm). apply IH.
Qed.

(** X4: after the global unflag and the local flag, a record is flagged
    exactly when its path is under the directory, whatever flags the store
    held; that state is committed, and marking again changes nothing. *)
Theorem marking_flags_the_directory :
  forall directory w,
    db (mark sep directory w)
    = map (fun r => set_indexing (under sep directory (filepath r)) r) (db w)
    /\ committed (mark sep directory w) = db (mark sep directory w)
    /\ db (mark sep directory (mark sep directory w))
       = db (mark sep directory w).
Proof.
  intros directory w. split; [apply db_mark|]. split; [reflexivity|].
  rewrite !db_mark, map_map. apply map_ext. intros r. reflexivity.
Qed.

(** *** Further properties of the flush *)

Lemma load_images_length :
  forall fs filepaths (images : list DecodedImage) filtered_paths hashes,
    load_images fs filepaths = (images, filtered_paths, hashes) ->
    (List.length images <= List.length filepaths)%nat.
Proof.
  intros fs filepaths.
  induction filepaths as [|p rest IH]; intros images filtered hashes H.
  - injection H as <- _ _. apply Nat.le_refl.
  - simpl in H. destruct (load_images fs rest) as [[is0 fp0] hs0].
    specialize (IH is0 fp0 hs0 eq_refl).
    destruct (image_open fs p); injection H as <- _ _; simpl; lia.
Qed.

Lemma load_images_none_open :
  forall fs filepaths,
    (forall p (image : DecodedImage),
        In p filepaths -> image_open fs p <> Opened image) ->
    load_images fs filepaths = ([], [], []).
Proof.
  intros fs filepaths.
  induction filepaths as [|p rest IH]; intros H; [reflexivity|].
  simpl. rewrite IH by (intros q image Hq; apply H; now right).
  destruct (image_open fs p) as [image| |] eqn:Hopen; try reflexivity.
  exfalso. exact (H p image (or_introl eq_refl) Hopen).
Qed.

(** X5: when no file of the batch opens as an image, the flush still calls
    the extraction model, on the empty list, and writes nothing. *)
Theorem flush_without_images :
  forall self fs filepaths ms w,
    (forall p image, In p filepaths -> image_open fs p <> Opened image) ->
    db (_index_files self fs filepaths ms w) = db w
    /\ committed (_index_files self fs filepaths ms w) = committed w
    /\ model_calls (_index_files self fs filepaths ms w)
       = model_calls w ++ [[]].
Proof.
  intros self fs filepaths ms w Hnone.
  unfold _index_files. rewrite (load_images_none_open fs filepaths Hnone).
  destruct (compute_image_features (_model self) []);
    repeat split.
Qed.

(** X6: a flush commits nothing, and every record of the store after it
    is a record that was there before or has the path of a file of the
    batch. *)
Theorem flush_writes_batch_paths :
  forall self fs filepaths ms w,
    committed (_index_files self fs filepaths ms w) = committed w
    /\ forall r, In r (db (_index_files self fs filepaths ms w)) ->
                 In r (db w) \/ In (filepath r) filepaths.
Proof.
  intros self fs filepaths ms w. split.
  - destruct (index_files_cases self fs filepaths ms w)
      as (? & ? & ? & _ & Hc & _). exact Hc.
  - apply (@Q_index_files (fun p => In p filepaths)
             (fun d => forall r, In r d ->
                                 In r (db w) \/ In (filepath r) filepaths)).
    + intros d n Hp Hd r Hr. unfold upsert_image in Hr.
      destruct (existsb _ d).
      * apply in_map_iff in Hr. destruct Hr as (r0 & <- & Hr0).
        destruct (filepath r0 =? n_filepath n)%string;
          [right; exact Hp | now apply Hd].
      * apply in_app_or in Hr. destruct Hr as [Hr|[<-|[]]];
          [now apply Hd | right; exact Hp].
    + intros d old p Hp Hd r Hr. unfold update_image_filepath in Hr.
      apply in_map_iff in Hr. destruct Hr as (r0 & <- & Hr0).
      destruct (filepath r0 =? old)%string;
        [right; exact Hp | now apply Hd].
    + apply Forall_forall. intros p Hp. exact Hp.
    + intros r Hr. now left.
Qed.

(** The loop keeps the batch shorter than the larger of 1 and the batch
    size, and passes no longer list to the model. *)
Lemma bounded_walk_step :
  forall self fs calls0 st e,
    (exists calls,
        model_calls (l_world st) = calls0 ++ calls
        /\ Forall (fun call : list DecodedImage =>
                     Z.of_nat (List.length call)
                     <= Z.max 1 (_indexing_batch_size self)) calls) ->
    Z.of_nat (List.length (batch st)) < Z.max 1 (_indexing_batch_size self) ->
    (exists calls,
        model_calls (l_world (walk_step self fs st e)) = calls0 ++ calls
        /\ Forall (fun call : list DecodedImage =>
                     Z.of_nat (List.length call)
                     <= Z.max 1 (_indexing_batch_size self)) calls)
    /\ Z.of_nat (List.length (batch (walk_step self fs st e)))
       < Z.max 1 (_indexing_batch_size self).
Proof.
  intros self fs calls0 st e (calls & Hcalls & Hbound) Hbatch.
  unfold walk_step.
  destruct (get_image_meta e) as [meta|]; [|split; [now exists calls | exact Hbatch]].
  set (w1 := if images_processed st mod DB_IMAGES_BEFORE_COMMIT =? 0
             then commit (l_world st) else l_world st).
  assert (Hc1 : model_calls w1 = model_calls (l_world st))
    by (unfold w1; destruct (_ =? 0); reflexivity).
  match goal with
  | |- context [if ?c then mkLoop _ _ _ _ else _] => destruct c
  end.
  - cbn [l_world batch]. rewrite model_calls_mutate, Hc1.
    split; [now exists calls | exact Hbatch].
  - assert (Hlen : Z.of_nat (List.length (batch st ++ [path e]))
                   = Z.of_nat (List.length (batch st)) + 1).
    { rewrite length_app. simpl. lia. }
    destruct (Z.of_nat (List.length (batch st ++ [path e]))
              >=? _indexing_batch_size self) eqn:Efull; cbn [l_world batch].
    + destruct (index_files_cases self fs (batch st ++ [path e])
                  (metas st ++ [meta]) w1)
        as (images & filtered & hashes & Hload & _ & Hmc & _).
      split; [|simpl; lia].
      exists (calls ++ [images]). split.
      * rewrite Hmc, Hc1, Hcalls. now rewrite app_assoc.
      * apply Forall_app. split; [exact Hbound|].
        constructor; [|constructor].
        pose proof (load_images_length _ _ Hload) as Hle. lia.
    + rewrite Z.geb_leb in Efull. apply Z.leb_gt in Efull.
      split; [exists calls; now rewrite Hc1 | lia].
Qed.

Lemma bounded_walk_loop :
  forall self fs calls0 entries st,
    (exists calls,
        model_calls (l_world st) = calls0 ++ calls
        /\ Forall (fun call : list DecodedImage =>
                     Z.of_nat (List.length call)
                     <= Z.max 1 (_indexing_batch_size self)) calls) ->
    Z.of_nat (List.length (batch st)) < Z.max 1 (_indexing_batch_size self) ->
    (exists calls,
        model_calls (l_world (walk_loop self fs st entries)) = calls0 ++ calls
        /\ Forall (fun call : list DecodedImage =>
                     Z.of_nat (List.length call)
                     <= Z.max 1 (_indexing_batch_size self)) calls)
    /\ Z.of_nat (List.length (batch (walk_loop self fs st entries)))
       < Z.max 1 (_indexing_batch_size self).
Proof.
  intros self fs calls0 entries.
  induction entries as [|e rest IH]; intros st Hcalls Hbatch;
    [now split|].
  cbn [walk_loop fold_left].
  destruct (@bounded_walk_step self fs calls0 st e Hcalls Hbatch) as [Hc Hb].
  now apply IH.
Qed.

(** X7: whatever the store and the tree, every list that a run passes to
    the extraction model holds at most [indexing_batch_size] images, and
    at most one when that size is not positive. *)
Theorem extraction_batches_are_bounded :
  forall self fs directory w,
    exists calls,
      model_calls (snd (ensure_index sep self fs directory w))
      = model_calls w ++ calls
      /\ forall call, In call calls ->
           Z.of_nat (List.length call)
           <= Z.max 1 (_indexing_batch_size self).
Proof.
  intros self fs directory w.
  destruct (bounded_walk_loop self fs (model_calls w)
              (walk fs directory (_exclude_dir_regex self))
              (mkLoop (mark sep directory w) 0 [] []))
    as [(calls & Hcalls & Hbound) Hbatch].
  { exists []. split; [|constructor].
    cbn [l_world]. now rewrite model_calls_mark, app_nil_r. }
  { simpl. lia. }
  rewrite Forall_forall in Hbound.
  unfold ensure_index.
  destruct (images_processed _ =? 0); cbn [snd].
  - exists calls. split; assumption.
  - unfold finish. rewrite model_calls_mutate. cbn [commit model_calls].
    unfold flush_rest. destruct (negb _).
    + destruct (index_files_cases self fs
                  (batch (walk_loop self fs
                            (mkLoop (mark sep directory w) 0 [] [])
                            (walk fs directory (_exclude_dir_regex self))))
                  (metas (walk_loop self fs
                            (mkLoop (mark sep directory w) 0 [] [])
                            (walk fs directory (_exclude_dir_regex self))))
                  (l_world (walk_loop self fs
                              (mkLoop (mark sep directory w) 0 [] [])
                              (walk fs directory
                                 (_exclude_dir_regex self)))))
        as (images & filtered & hashes & Hload & _ & Hmc & _).
      exists (calls ++ [images]). split.
      * rewrite Hmc, Hcalls. now rewrite app_assoc.
      * intros call Hin. apply in_app_or in Hin.
        destruct Hin as [Hin|[<-|[]]]; [now apply Hbound|].
        pose proof (load_images_length _ _ Hload) as Hle. lia.
    + exists calls. split; assumption.
Qed.

(** *** A flush whose files all decode *)

Lemma get_image_upsert_same :
  forall d (n : NewImage FeatureVector),
    get_image (upsert_image d n) (n_filepath n) = Some (fresh n).
Proof.
  intros d n. unfold upsert_image, get_image.
  destruct (existsb (fun r => (filepath r =? n_filepath n)%string) d) eqn:Hex.
  - induction d as [|a d IH]; [discriminate|]. simpl in *.
    destruct (filepath a =? n_filepath n)%string eqn:E; simpl.
    + now rewrite String.eqb_refl.
    + rewrite E. apply IH. exact Hex.
  - induction d as [|a d IH]; simpl in *.
    + now rewrite String.eqb_refl.
    + apply orb_false_iff in Hex. destruct Hex as [E Hex].
      rewrite E. now apply IH.
Qed.

Lemma get_image_upsert_other :
  forall d (n : NewImage FeatureVector) p,
    p <> n_filepath n ->
    get_image (upsert_image d n) p = get_image d p.
Proof.
  intros d n p Hp. unfold upsert_image, get_image.
  assert (Hfresh : (n_filepath n =? p)%string = false).
  { apply String.eqb_neq. congruence. }
  destruct (existsb (fun r => (filepath r =? n_filepath n)%string) d).
  - induction d as [|a d IH]; [reflexivity|]. simpl.
    destruct (String.eqb_spec (filepath a) (n_filepath n)) as [E|E].
    + cbn [filepath fresh]. rewrite Hfresh.
      assert (Ha : (filepath a =? p)%string = false)
        by (apply String.eqb_neq; congruence).
      now rewrite Ha.
    + destruct (filepath a =? p)%string; [reflexivity | exact IH].
  - induction d as [|a d IH]; simpl.
    + cbn [filepath fresh]. now rewrite Hfresh.
    + destruct (filepath a =? p)%string; [reflexivity | exact IH].
Qed.

Lemma In_upsert :
  forall d (n : NewImage FeatureVector) r,
    In r (upsert_image d n) -> r = fresh n \/ In r d.
Proof.
  intros d n r Hr. unfold upsert_image in Hr.
  destruct (existsb _ d).
  - apply in_map_iff in Hr. destruct Hr as (r0 & <- & Hr0).
    destruct (filepath r0 =? n_filepath n)%string; [now left | now right].
  - apply in_app_or in Hr. destruct Hr as [Hr|[<-|[]]];
      [now right | now left].
Qed.

Lemma zip4_In_last :
  forall (A B C D : Type) (R : A -> D -> Prop)
         (la : list A) (lb : list B) (lc : list C) (ld : list D),
    Forall2 R la ld ->
    forall a b c e, In (a, b, c, e) (zip4 la lb lc ld) -> R a e.
Proof.
  intros A B C D R la lb lc ld HR. revert lb lc.
  induction HR as [|a0 e0 la ld Hae HR IH]; intros lb lc a b c e Hin.
  - contradiction.
  - destruct lb as [|b0 lb]; [contradiction|].
    destruct lc as [|c0 lc]; [contradiction|].
    destruct Hin as [Hin|Hin].
    + injection Hin as <- <- <- <-. exact Hae.
    + eapply IH; eassumption.
Qed.

Lemma zip4_nth :
  forall (A B C D : Type) (la : list A) (lb : list B) (lc : list C)
         (ld : list D) i a b c e,
    nth_error la i = Some a -> nth_error lb i = Some b ->
    nth_error lc i = Some c -> nth_error ld i = Some e ->
    In (a, b, c, e) (zip4 la lb lc ld).
Proof.
  intros A B C D la. induction la as [|a0 la IH];
    intros lb lc ld i a b c e Ha Hb Hc He.
  - destruct i; discriminate.
  - destruct lb as [|b0 lb]; [destruct i; discriminate|].
    destruct lc as [|c0 lc]; [destruct i; discriminate|].
    destruct ld as [|e0 ld]; [destruct i; discriminate|].
    destruct i as [|i]; simpl in *.
    + injection Ha as <-. injection Hb as <-.
      injection Hc as <-. injection He as <-. now left.
    + right. eapply IH; eassumption.
Qed.

Lemma Forall2_nth_left :
  forall (A B : Type) (R : A -> B -> Prop) (la : list A) (lb : list B) i a,
    Forall2 R la lb -> nth_error la i = Some a ->
    exists b, nth_error lb i = Some b /\ R a b.
Proof.
  intros A B R la lb i a H. revert i.
  induction H as [|a0 b0 la lb Hab H IH]; intros i Hi.
  - destruct i; discriminate.
  - destruct i as [|i]; simpl in *.
    + injection Hi as <-. exists b0. now split.
    + now apply IH.
Qed.

Lemma zip4_NoDup :
  forall (B C D : Type) (la : list string) (lb : list B) (lc : list C)
         (ld : list D),
    NoDup la ->
    NoDup (map (fun it : string * B * C * D => fst (fst (fst it)))
               (zip4 la lb lc ld)).
Proof.
  intros B C D la. induction la as [|a la IH]; intros lb lc ld Hnd.
  - constructor.
  - destruct lb as [|b lb]; [constructor|].
    destruct lc as [|c lc]; [constructor|].
    destruct ld as [|e ld]; [constructor|].
    inversion Hnd as [|x l Hnotin Hnd']; subst. simpl. constructor.
    + intros Hin. apply in_map_iff in Hin.
      destruct Hin as ([[[a' b'] c'] e'] & Heq & Hin). simpl in Heq. subst a'.
      apply zip4_In in Hin. destruct Hin as [Hin _]. contradiction.
    + now apply IH.
Qed.

(** When no digest of the items is held under another path, the second
    loop of the flush is a sequence of upserts. *)
Lemma fold_reconcile_upserts :
  forall (items : list (string * ImageMeta * FeatureVector * string)) d,
    (forall p meta vec h r,
        In (p, meta, vec, h) items -> In r d -> hash r = h ->
        filepath r = p) ->
    (forall p meta vec h p' meta' vec',
        In (p, meta, vec, h) items -> In (p', meta', vec', h) items ->
        p = p') ->
    fold_left (@reconcile FeatureVector) items d
    = fold_left (fun d0 it =>
                   let '(p, meta, vec, h) := it in
                   upsert_image d0
                     (mkNewImage p (modified_at meta) (size meta) vec h))
        items d.
Proof.
  induction items as [|[[[p meta] vec] h] items IH]; intros d Hdb Hfs;
    [reflexivity|].
  cbn [fold_left].
  assert (Hrec : reconcile d (p, meta, vec, h)
                 = upsert_image d
                     (mkNewImage p (modified_at meta) (size meta) vec h)).
  { unfold reconcile.
    destruct (get_image_by_hash d h) as [existing|] eqn:Hfind;
      [|reflexivity].
    apply find_some in Hfind. destruct Hfind as [Hin Hh].
    apply String.eqb_eq in Hh.
    rewrite (Hdb p meta vec h existing (or_introl eq_refl) Hin Hh).
    now rewrite String.eqb_refl. }
  rewrite Hrec. apply IH.
  - intros p' m' v' h' r Hit Hr Hh. apply In_upsert in Hr.
    destruct Hr as [->|Hr].
    + simpl in *. subst h'. symmetry.
      eapply Hfs; [right; exact Hit | left; reflexivity].
    + eapply Hdb; [right; exact Hit | exact Hr | exact Hh].
  - intros p1 m1 v1 h1 p2 m2 v2 H1 H2.
    eapply Hfs; right; eassumption.
Qed.

Lemma get_image_fold_upsert_other :
  forall (items : list (string * ImageMeta * FeatureVector * string)) d q,
    ~ In q (map (fun it => fst (fst (fst it))) items) ->
    get_image
      (fold_left (fun d0 it =>
                    let '(p, meta, vec, h) := it in
                    upsert_image d0
                      (mkNewImage p (modified_at meta) (size meta) vec h))
         items d) q
    = get_image d q.
Proof.
  induction items as [|[[[p meta] vec] h] items IH]; intros d q Hq;
    [reflexivity|].
  cbn [fold_left]. rewrite IH.
  - apply get_image_upsert_other. simpl. intros ->. apply Hq. now left.
  - intros Hin. apply Hq. now right.
Qed.

Lemma get_image_fold_upsert :
  forall (items : list (string * ImageMeta * FeatureVector * string)) d
         p meta vec h,
    NoDup (map (fun it => fst (fst (fst it))) items) ->
    In (p, meta, vec, h) items ->
    get_image
      (fold_left (fun d0 it =>
                    let '(p, meta, vec, h) := it in
                    upsert_image d0
                      (mkNewImage p (modified_at meta) (size meta) vec h))
         items d) p
    = Some (mkImage p (modified_at meta) (size meta) h vec false).
Proof.
  induction items as [|[[[p0 m0] v0] h0] items IH];
    intros d p meta vec h Hnd Hin; [contradiction|].
  inversion Hnd as [|x l Hnotin Hnd']; subst.
  cbn [fold_left]. destruct Hin as [Hin|Hin].
  - injection Hin as -> -> -> ->.
    rewrite get_image_fold_upsert_other by exact Hnotin.
    apply (get_image_upsert_same d
             (mkNewImage p (modified_at meta) (size meta) vec h)).
  - now apply IH.
Qed.

(** X8: every file of the batch opens and has a digest, the paths of the
    batch differ, no two of its files share a digest, and every record
    that holds the digest of one of them has the path of that file.  When
    the extraction succeeds, the record found under the path of the
    [i]-th file holds that file's metadata, digest and vector, and is not
    flagged. *)
Theorem flush_stores_each_file :
  forall self fs filepaths ms w features,
    (forall p, In p filepaths ->
       exists image h, image_open fs p = Opened image
                       /\ file_md5 fs p = Some h) ->
    NoDup filepaths ->
    (forall p q h, In p filepaths -> In q filepaths ->
       file_md5 fs p = Some h -> file_md5 fs q = Some h -> p = q) ->
    (forall r p, In r (db w) -> In p filepaths ->
       file_md5 fs p = Some (hash r) -> filepath r = p) ->
    compute_image_features (_model self)
      (fst (fst (load_images fs filepaths))) = Some features ->
    forall i p meta vec,
      nth_error filepaths i = Some p ->
      nth_error ms i = Some meta ->
      nth_error features i = Some vec ->
      exists h,
        file_md5 fs p = Some h
        /\ get_image (db (_index_files self fs filepaths ms w)) p
           = Some (mkImage p (modified_at meta) (size meta) h vec false).
Proof.
  intros self fs filepaths ms w features Hopen Hnd Hfs Hdb Hfeat
         i p meta vec Hp Hm Hv.
  destruct (load_images_decodable fs filepaths Hopen)
    as (images & hashes & Hload & Hh).
  rewrite Hload in Hfeat. cbn [fst] in Hfeat.
  destruct (Forall2_nth_left i Hh Hp) as (h & Hhi & Hmd5).
  exists h. split; [exact Hmd5|].
  unfold _index_files. rewrite Hload, Hfeat. cbn [set_db db log_model_call].
  rewrite fold_reconcile_upserts.
  - apply get_image_fold_upsert.
    + now apply zip4_NoDup.
    + eapply zip4_nth; eassumption.
  - intros p' m' v' h' r Hit Hr Hhash.
    pose proof (zip4_In_last _ _ Hh _ _ _ _ Hit) as Hmd5'.
    apply zip4_In in Hit. destruct Hit as [Hit _].
    apply Hdb; [exact Hr | exact Hit | congruence].
  - intros p1 m1 v1 h1 p2 m2 v2 H1 H2.
    pose proof (zip4_In_last _ _ Hh _ _ _ _ H1) as Hmd1.
    pose proof (zip4_In_last _ _ Hh _ _ _ _ H2) as Hmd2.
    apply zip4_In in H1. apply zip4_In in H2.
    eapply Hfs; [apply H1 | apply H2 | exact Hmd1 | exact Hmd2].
Qed.

(** *** Records the run has no business with *)

Lemma load_images_hashes :
  forall fs filepaths (images : list DecodedImage) filtered_paths hashes,
    load_images fs filepaths = (images, filtered_paths, hashes) ->
    forall h, In h hashes ->
      exists q, In q filepaths /\ file_md5 fs q = Some h.
Proof.
  intros fs filepaths.
  induction filepaths as [|p rest IH]; intros images filtered hashes H h Hh.
  - injection H as _ _ <-. contradiction.
  - simpl in H. destruct (load_images fs rest) as [[is0 fp0] hs0].
    assert (Hrest : In h hs0 ->
              exists q, In q (p :: rest) /\ file_md5 fs q = Some h).
    { intros Hin. destruct (IH is0 fp0 hs0 eq_refl h Hin) as (q & Hq & Hm).
      exists q. split; [now right | exact Hm]. }
    destruct (image_open fs p).
    + destruct (file_md5 fs p) as [h0|] eqn:Hm; injection H as _ _ <-.
      * destruct Hh as [<-|Hh]; [|now apply Hrest].
        exists p. split; [now left | exact Hm].
      * now apply Hrest.
    + injection H as _ _ <-. now apply Hrest.
    + injection H as _ _ <-. now apply Hrest.
Qed.

(** The invariants of [StoreInvariant], for a property that the flush
    keeps because of the digests it looks up: those of files of the
    batch. *)
Section DigestInvariant.

Variable fs : FileSystem DecodedImage.
Variable touched : string -> Prop.
Variable Q : list (Image FeatureVector) -> Prop.

Hypothesis Q_unflag :
  forall d p, touched p -> Q d -> Q (remove_indexing_flag d p).
Hypothesis Q_item :
  forall d p meta vec h,
    touched p ->
    (exists q, touched q /\ file_md5 fs q = Some h) ->
    Q d -> Q (reconcile d (p, meta, vec, h)).

Lemma QD_index_files :
  forall self filepaths ms w,
    Forall touched filepaths ->
    Q (db w) -> Q (db (_index_files self fs filepaths ms w)).
Proof.
  intros self filepaths ms w Hall Hw.
  rewrite Forall_forall in Hall.
  destruct (index_files_cases self fs filepaths ms w)
    as (images & filtered & hashes & Hload & _ & _ & [[_ Hdb]|[fe [_ Hdb]]]);
    rewrite Hdb; [exact Hw|].
  assert (Hitems : forall p meta vec h,
             In (p, meta, vec, h) (zip4 filtered ms fe hashes) ->
             touched p /\ exists q, touched q /\ file_md5 fs q = Some h).
  { intros p meta vec h Hin. apply zip4_In in Hin.
    destruct Hin as (Hp & _ & _ & Hh). split.
    - apply Hall. eapply load_images_filtered_In; eassumption.
    - destruct (load_images_hashes _ _ Hload h Hh) as (q & Hq & Hm).
      exists q. split; [now apply Hall | exact Hm]. }
  revert Hitems. generalize (zip4 filtered ms fe hashes). revert Hw.
  generalize (db w). intros d Hd items. revert d Hd.
  induction items as [|[[[p meta] vec] h] items IH]; intros d Hd Hitems;
    [exact Hd|].
  cbn [fold_left]. apply IH.
  - destruct (Hitems p meta vec h (or_introl eq_refl)) as [Hp Hq].
    now apply Q_item.
  - intros p' m' v' h' Hin. apply (Hitems p' m' v' h'). now right.
Qed.

Lemma QD_walk_step :
  forall self st e,
    (get_image_meta e <> None -> touched (path e)) ->
    Q (db (l_world st)) /\ Forall touched (batch st) ->
    Q (db (l_world (walk_step self fs st e)))
    /\ Forall touched (batch (walk_step self fs st e)).
Proof.
  intros self st e He [Hdb Hbatch].
  destruct (walk_step_cases self fs st e)
    as [[_ ->]
       |[(meta & Hm & Hd & Hb & _ & _)
        |[(meta & Hm & Hd & Hb & _ & _)
         |(meta & w1 & Hm & Hd & _ & Hw & Hb & _)]]].
  - now split.
  - rewrite Hd, Hb. split; [|exact Hbatch].
    apply Q_unflag; [apply He; congruence | exact Hdb].
  - rewrite Hd, Hb. split; [exact Hdb|].
    apply Forall_app. split; [exact Hbatch|].
    constructor; [apply He; congruence | constructor].
  - rewrite Hw, Hb. split; [|constructor].
    apply QD_index_files; [|now rewrite Hd].
    apply Forall_app. split; [exact Hbatch|].
    constructor; [apply He; congruence | constructor].
Qed.

Lemma QD_before_sweep :
  forall self directory w,
    (forall e, In e (walk fs directory (_exclude_dir_regex self)) ->
               get_image_meta e <> None -> touched (path e)) ->
    Q (db (mark sep directory w)) ->
    Q (db (flush_rest self fs
             (walk_loop self fs (mkLoop (mark sep directory w) 0 [] [])
                (walk fs directory (_exclude_dir_regex self))))).
Proof.
  intros self directory w Hall Hmark.
  assert (Hloop : forall entries st,
             (forall e, In e entries -> get_image_meta e <> None ->
                        touched (path e)) ->
             Q (db (l_world st)) /\ Forall touched (batch st) ->
             Q (db (l_world (walk_loop self fs st entries)))
             /\ Forall touched (batch (walk_loop self fs st entries))).
  { induction entries as [|e rest IH]; intros st Hes Hst; [exact Hst|].
    cbn [walk_loop fold_left]. apply IH.
    - intros e' Hin. apply Hes. now right.
    - apply QD_walk_step; [|exact Hst]. apply Hes. now left. }
  destruct (Hloop (walk fs directory (_exclude_dir_regex self))
              (mkLoop (mark sep directory w) 0 [] []) Hall)
    as [Hd Hb].
  { split; [exact Hmark | constructor]. }
  unfold flush_rest. destruct (negb _); [|exact Hd].
  now apply QD_index_files.
Qed.

End DigestInvariant.

(** X9: a record outside the directory, whose path the traversal does not
    meet, and such that no record of its path holds the digest of a
    scanned file, is still in the store after a run that completes, as it
    was but for its flag, which is cleared. *)
Theorem unrelated_record_survives :
  forall self fs directory w w' r,
    In r (db w) ->
    under sep directory (filepath r) = false ->
    (forall e, In e (walk fs directory (_exclude_dir_regex self)) ->
               path e <> filepath r) ->
    (forall r0 e, In r0 (db w) -> filepath r0 = filepath r ->
       In e (walk fs directory (_exclude_dir_regex self)) ->
       file_md5 fs (path e) <> Some (hash r0)) ->
    ensure_index sep self fs directory w = (Ok tt, w') ->
    In (set_indexing false r) (db w').
Proof.
  intros self fs directory w w' r Hin Hout Hpath Hdigest Hrun.
  apply ensure_index_completed in Hrun. destruct Hrun as [-> _].
  rewrite db_finish.
  unfold flag_indexing_images_in_a_dir_as_deleted.
  apply filter_In. split; [|simpl; now rewrite andb_false_r].
  apply (@QD_before_sweep fs
           (fun p => exists e,
                In e (walk fs directory (_exclude_dir_regex self))
                /\ path e = p)
           (fun d =>
              In (set_indexing false r) d
              /\ forall r0 e, In r0 d -> filepath r0 = filepath r ->
                   In e (walk fs directory (_exclude_dir_regex self)) ->
                   file_md5 fs (path e) <> Some (hash r0))).
  - intros d p _ [Hr Hd]. unfold remove_indexing_flag. split.
    + apply in_map_iff. exists (set_indexing false r). split; [|exact Hr].
      simpl. destruct (filepath r =? p)%string; reflexivity.
    + intros r0 e Hr0 Hp0 He. apply in_map_iff in Hr0.
      destruct Hr0 as (r1 & <- & Hr1).
      destruct (filepath r1 =? p)%string; exact (Hd r1 e Hr1 Hp0 He).
  - intros d p meta vec h (e & He & <-) (q & (e' & He' & <-) & Hmd5) [Hr Hd].
    assert (Hne : path e <> filepath r) by now apply Hpath.
    assert (Hupsert :
              In (set_indexing false r)
                 (upsert_image d
                    (mkNewImage (path e) (modified_at meta) (size meta)
                       vec h))
              /\ forall r0 e0,
                   In r0 (upsert_image d
                            (mkNewImage (path e) (modified_at meta)
                               (size meta) vec h)) ->
                   filepath r0 = filepath r ->
                   In e0 (walk fs directory (_exclude_dir_regex self)) ->
                   file_md5 fs (path e0) <> Some (hash r0)).
    { split.
      - unfold upsert_image. cbn [n_filepath]. destruct (existsb _ d).
        + apply in_map_iff. exists (set_indexing false r).
          split; [|exact Hr]. simpl.
          destruct (String.eqb_spec (filepath r) (path e));
            [congruence | reflexivity].
        + apply in_or_app. now left.
      - intros r0 e0 Hr0 Hp0 He0. apply In_upsert in Hr0.
        destruct Hr0 as [->|Hr0]; [simpl in Hp0; congruence|].
        exact (Hd r0 e0 Hr0 Hp0 He0). }
    unfold reconcile.
    destruct (get_image_by_hash d h) as [existing|] eqn:Hfind;
      [|exact Hupsert].
    destruct (negb (filepath existing =? path e)%string); [|exact Hupsert].
    apply find_some in Hfind. destruct Hfind as [Hex Hh].
    apply String.eqb_eq in Hh.
    assert (Hold : filepath existing <> filepath r).
    { intros Heq. apply (Hd existing e' Hex Heq He'). congruence. }
    unfold update_image_filepath. split.
    + apply in_map_iff. exists (set_indexing false r). split; [|exact Hr].
      simpl. destruct (String.eqb_spec (filepath r) (filepath existing));
        [congruence | reflexivity].
    + intros r0 e0 Hr0 Hp0 He0. apply in_map_iff in Hr0.
      destruct Hr0 as (r1 & <- & Hr1).
      destruct (filepath r1 =? filepath existing)%string;
        [simpl in Hp0; congruence | exact (Hd r1 e0 Hr1 Hp0 He0)].
  - intros e He _. exists e. now split.
  - rewrite db_mark. split.
    + apply in_map_iff. exists r. split; [|exact Hin]. now rewrite Hout.
    + intros r0 e Hr0 Hp0 He. apply in_map_iff in Hr0.
      destruct Hr0 as (r1 & <- & Hr1). exact (Hdigest r1 e Hr1 Hp0 He).
Qed.


(** *** The number of extraction calls *)

Lemma batch_fills :
  forall B n, 1 <= B -> 0 <= n -> B <= n mod B + 1 ->
    (n + 1) / B = n / B + 1 /\ (n + 1) mod B = 0.
Proof.
  intros B n HB Hn Hfull.
  pose proof (Z.div_mod n B ltac:(lia)) as Hdm.
  pose proof (Z.mod_pos_bound n B ltac:(lia)) as Hb.
  assert (Hq : (n + 1) / B = n / B + 1).
  { symmetry. apply (Z.div_unique (n + 1) B (n / B + 1) 0); nia. }
  split; [exact Hq|].
  rewrite Z.mod_eq by lia. rewrite Hq. nia.
Qed.

Lemma batch_grows :
  forall B n, 1 <= B -> 0 <= n -> n mod B + 1 < B ->
    (n + 1) / B = n / B /\ (n + 1) mod B = n mod B + 1.
Proof.
  intros B n HB Hn Hpart.
  pose proof (Z.div_mod n B ltac:(lia)) as Hdm.
  pose proof (Z.mod_pos_bound n B ltac:(lia)) as Hb.
  assert (Hq : (n + 1) / B = n / B).
  { symmetry. apply (Z.div_unique (n + 1) B (n / B) (n mod B + 1)); nia. }
  split; [exact Hq|].
  rewrite Z.mod_eq by lia. rewrite Hq. nia.
Qed.

Lemma rounded_up_quotient :
  forall B n, 1 <= B -> 0 <= n ->
    (n + B - 1) / B = n / B + (if n mod B =? 0 then 0 else 1).
Proof.
  intros B n HB Hn.
  pose proof (Z.div_mod n B ltac:(lia)) as Hdm.
  pose proof (Z.mod_pos_bound n B ltac:(lia)) as Hb.
  destruct (Z.eqb_spec (n mod B) 0) as [E|E]; symmetry.
  - apply (Z.div_unique (n + B - 1) B (n / B + 0) (B - 1)); nia.
  - apply (Z.div_unique (n + B - 1) B (n / B + 1) (n mod B - 1)); nia.
Qed.

Lemma get_image_absent :
  forall d p,
    (forall r, In r d -> filepath r <> p) ->
    @get_image FeatureVector d p = None.
Proof.
  intros d p H. unfold get_image.
  destruct (find _ d) as [r|] eqn:Hfind; [|reflexivity].
  apply find_some in Hfind. destruct Hfind as [Hin Heq].
  apply String.eqb_eq in Heq. exfalso. exact (H r Hin Heq).
Qed.

(** The iteration on a readable entry that the store does not know: the
    entry is batched, and the batch is flushed when it is full. *)
Lemma counting_step :
  forall self fs calls0 rest st e meta,
    1 <= _indexing_batch_size self ->
    get_image_meta e = Some meta ->
    ~ In (path e) (map path rest) ->
    (forall r e', In r (db (l_world st)) -> In e' (e :: rest) ->
                  filepath r <> path e') ->
    (forall p e', In p (batch st) -> In e' (e :: rest) -> p <> path e') ->
    0 <= images_processed st ->
    (exists calls,
        model_calls (l_world st) = calls0 ++ calls
        /\ Z.of_nat (List.length calls)
           = images_processed st / _indexing_batch_size self) ->
    Z.of_nat (List.length (batch st))
    = images_processed st mod _indexing_batch_size self ->
    images_processed (walk_step self fs st e) = images_processed st + 1
    /\ (forall r e', In r (db (l_world (walk_step self fs st e))) ->
                     In e' rest -> filepath r <> path e')
    /\ (forall p e', In p (batch (walk_step self fs st e)) ->
                     In e' rest -> p <> path e')
    /\ (exists calls,
          model_calls (l_world (walk_step self fs st e)) = calls0 ++ calls
          /\ Z.of_nat (List.length calls)
             = (images_processed st + 1) / _indexing_batch_size self)
    /\ Z.of_nat (List.length (batch (walk_step self fs st e)))
       = (images_processed st + 1) mod _indexing_batch_size self.
Proof.
  intros self fs calls0 rest st e meta HB Hmeta Hnotin Hdb Hbatch Hn
         (calls & Hcalls & Hcount) Hlen.
  assert (Hget : get_image (db (l_world st)) (path e) = None).
  { apply get_image_absent. intros r Hr. apply Hdb; [exact Hr | now left]. }
  assert (Hrest : forall e', In e' rest -> path e <> path e').
  { intros e' He' Heq. apply Hnotin. rewrite Heq. now apply in_map. }
  set (w1 := if images_processed st mod DB_IMAGES_BEFORE_COMMIT =? 0
             then commit (l_world st) else l_world st).
  assert (Hw1 : db w1 = db (l_world st))
    by (unfold w1; destruct (_ =? 0); reflexivity).
  assert (Hc1 : model_calls w1 = model_calls (l_world st))
    by (unfold w1; destruct (_ =? 0); reflexivity).
  assert (Hstep :
            walk_step self fs st e
            = if Z.of_nat (List.length (batch st ++ [path e]))
                 >=? _indexing_batch_size self
              then mkLoop (_index_files self fs (batch st ++ [path e])
                             (metas st ++ [meta]) w1)
                          (images_processed st + 1) [] []
              else mkLoop w1 (images_processed st + 1)
                          (batch st ++ [path e]) (metas st ++ [meta])).
  { unfold walk_step. rewrite Hmeta, Hget. reflexivity. }
  assert (Hlen' : Z.of_nat (List.length (batch st ++ [path e]))
                  = images_processed st mod _indexing_batch_size self + 1).
  { rewrite length_app. simpl. lia. }
  assert (Hb' : forall p e', In p (batch st ++ [path e]) -> In e' rest ->
                             p <> path e').
  { intros p e' Hp He'. apply in_app_or in Hp.
    destruct Hp as [Hp|[<-|[]]];
      [apply Hbatch; [exact Hp | now right] | now apply Hrest]. }
  rewrite Hstep.
  destruct (Z.of_nat (List.length (batch st ++ [path e]))
            >=? _indexing_batch_size self) eqn:Efull;
    cbn [l_world images_processed batch].
  - rewrite Z.geb_leb in Efull. apply Z.leb_le in Efull.
    destruct (@batch_fills (_indexing_batch_size self)
                (images_processed st) HB Hn) as [Hq Hr]; [lia|].
    destruct (index_files_cases self fs (batch st ++ [path e])
                (metas st ++ [meta]) w1)
      as (images & filtered & hashes & _ & _ & Hmc & _).
    split; [reflexivity|]. split; [|split; [|split]].
    + intros r e' Hr' He'. revert r Hr'.
      apply (@Q_index_files (fun p => forall e0, In e0 rest -> p <> path e0)
               (fun d => forall r, In r d -> filepath r <> path e')).
      * intros d n Hp Hd r Hr'. apply In_upsert in Hr'.
        destruct Hr' as [->|Hr']; [now apply Hp | now apply Hd].
      * intros d old p Hp Hd r Hr'.
        unfold update_image_filepath in Hr'.
        apply in_map_iff in Hr'. destruct Hr' as (r0 & <- & Hr0).
        destruct (filepath r0 =? old)%string;
          [now apply Hp | now apply Hd].
      * apply Forall_forall. intros p Hp e0 He0. now apply Hb'.
      * rewrite Hw1. intros r Hr'. apply Hdb; [exact Hr' | now right].
    + intros p e' [].
    + exists (calls ++ [images]). split.
      * rewrite Hmc, Hc1, Hcalls. now rewrite app_assoc.
      * rewrite length_app. simpl. lia.
    + simpl. lia.
  - rewrite Z.geb_leb in Efull. apply Z.leb_gt in Efull.
    destruct (@batch_grows (_indexing_batch_size self)
                (images_processed st) HB Hn) as [Hq Hr]; [lia|].
    split; [reflexivity|]. split; [|split; [|split]].
    + intros r e' Hr' He'. rewrite Hw1 in Hr'.
      apply Hdb; [exact Hr' | now right].
    + exact Hb'.
    + exists calls. split; [now rewrite Hc1 | lia].
    + lia.
Qed.

(** Over entries that the store does not know, the loop batches every
    readable entry: the calls made are the whole batches, and the batch
    holds the remainder. *)
Lemma counting_loop :
  forall self fs calls0 entries st,
    1 <= _indexing_batch_size self ->
    NoDup (map path entries) ->
    (forall r e, In r (db (l_world st)) -> In e entries ->
                 filepath r <> path e) ->
    (forall p e, In p (batch st) -> In e entries -> p <> path e) ->
    0 <= images_processed st ->
    (exists calls,
        model_calls (l_world st) = calls0 ++ calls
        /\ Z.of_nat (List.length calls)
           = images_processed st / _indexing_batch_size self) ->
    Z.of_nat (List.length (batch st))
    = images_processed st mod _indexing_batch_size self ->
    images_processed (walk_loop self fs st entries)
    = images_processed st
      + Z.of_nat (List.length
                    (filter (fun e => match get_image_meta e with
                                      | Some _ => true
                                      | None => false
                                      end) entries))
    /\ (exists calls,
          model_calls (l_world (walk_loop self fs st entries))
          = calls0 ++ calls
          /\ Z.of_nat (List.length calls)
             = images_processed (walk_loop self fs st entries)
               / _indexing_batch_size self)
    /\ Z.of_nat (List.length (batch (walk_loop self fs st entries)))
       = images_processed (walk_loop self fs st entries)
         mod _indexing_batch_size self.
Proof.
  intros self fs calls0 entries.
  induction entries as [|e rest IH];
    intros st HB Hnd Hdb Hbatch Hn Hcalls Hlen.
  - simpl. rewrite Z.add_0_r. repeat split; assumption.
  - inversion Hnd as [|x l Hnotin Hnd']; subst.
    cbn [walk_loop fold_left filter].
    fold (walk_loop self fs (walk_step self fs st e) rest).
    destruct (get_image_meta e) as [meta|] eqn:Hmeta.
    + destruct (@counting_step self fs calls0 rest st e meta HB Hmeta Hnotin
                  Hdb Hbatch Hn Hcalls Hlen)
        as (Hn1 & Hdb1 & Hb1 & Hc1 & Hl1).
      rewrite <- Hn1 in Hc1, Hl1.
      destruct (IH (walk_step self fs st e) HB Hnd' Hdb1 Hb1) as (H1 & H2 & H3);
        [lia | exact Hc1 | exact Hl1 |].
      repeat split; [|exact H2 | exact H3].
      rewrite H1, Hn1. cbn [List.length]. lia.
    + rewrite (walk_step_skipped self fs st e Hmeta).
      apply IH; try assumption.
      * intros r e' Hr He'. apply Hdb; [exact Hr | now right].
      * intros p e' Hp He'. apply Hbatch; [exact Hp | now right].
Qed.

(** X19: the batch size is positive, the traversal meets no path twice
    and none that the store knows.  Then the run calls the extraction
    model as many times as the number of readable entries divided by the
    batch size, rounded up. *)
Theorem fresh_run_extraction_count :
  forall self fs directory w,
    1 <= _indexing_batch_size self ->
    NoDup (map path (walk fs directory (_exclude_dir_regex self))) ->
    (forall r e, In r (db w) ->
       In e (walk fs directory (_exclude_dir_regex self)) ->
       filepath r <> path e) ->
    exists calls,
      model_calls (snd (ensure_index sep self fs directory w))
      = model_calls w ++ calls
      /\ Z.of_nat (List.length calls)
         = (Z.of_nat (List.length
                        (filter (fun e => match get_image_meta e with
                                          | Some _ => true
                                          | None => false
                                          end)
                           (walk fs directory (_exclude_dir_regex self))))
            + _indexing_batch_size self - 1)
           / _indexing_batch_size self.
Proof.
  intros self fs directory w HB Hnd Hnew.
  destruct (@counting_loop self fs (model_calls w)
              (walk fs directory (_exclude_dir_regex self))
              (mkLoop (mark sep directory w) 0 [] []) HB Hnd)
    as (Hn & (calls & Hcalls & Hcount) & Hlen);
    cbn [l_world images_processed batch].
  - intros r e Hr He. apply In_mark in Hr.
    destruct Hr as (r0 & Hr0 & ->). simpl. now apply Hnew.
  - intros p e [].
  - lia.
  - exists []. split; [now rewrite model_calls_mark, app_nil_r|].
    simpl. now rewrite Z.div_0_l by lia.
  - simpl. now rewrite Z.mod_0_l by lia.
  - cbn [images_processed] in Hn. rewrite Z.add_0_l in Hn.
    rewrite <- Hn.
    set (st := walk_loop self fs (mkLoop (mark sep directory w) 0 [] [])
                 (walk fs directory (_exclude_dir_regex self))) in *.
    assert (Hpos : 0 <= images_processed st) by lia.
    rewrite (@rounded_up_quotient (_indexing_batch_size self)
               (images_processed st) HB Hpos).
    unfold ensure_index. fold st.
    destruct (Z.eqb_spec (images_processed st) 0) as [E|E]; cbn [snd].
    + exists calls. split; [exact Hcalls|].
      rewrite Hcount, E. rewrite Z.mod_0_l by lia.
      cbn [Z.eqb]. now rewrite Z.add_0_r.
    + unfold finish. rewrite model_calls_mutate. cbn [commit model_calls].
      unfold flush_rest.
      destruct (batch st) as [|p0 ps] eqn:Hbatch.
      * cbn [List.length Nat.eqb negb]. exists calls.
        split; [exact Hcalls|]. simpl in Hlen. rewrite <- Hlen.
        cbn [Z.eqb]. now rewrite Z.add_0_r.
      * cbn [List.length Nat.eqb negb].
        destruct (index_files_cases self fs (p0 :: ps) (metas st) (l_world st))
          as (images & filtered & hashes & _ & _ & Hmc & _).
        exists (calls ++ [images]). split.
        -- rewrite Hmc, Hcalls. now rewrite app_assoc.
        -- rewrite length_app, Nat2Z.inj_add, Hcount.
           destruct (Z.eqb_spec (images_processed st
                                 mod _indexing_batch_size self) 0) as [E0|E0].
           ++ rewrite E0 in Hlen. simpl in Hlen. lia.
           ++ reflexivity.
Qed.

(** *** Further properties of the ranker *)

Section RankerResults.

Variable re_match : string -> string -> bool.
Variable is_file_path : string -> bool.
Variable abspath : string -> string.

(** The outcomes of [search], read off its four steps. *)
Lemma search_outcome :
  forall self query_text directory top_k positive negative w,
    let rows := get_image_vectors_by_dir_path sep (db w) directory in
    let keep :=
      keep_similarity re_match self (map fst rows)
        (map abspath
           (filter is_file_path ((query_text :: positive) ++ negative))) in
    search sep re_match is_file_path abspath self query_text directory top_k
      positive negative w
    = match compute_similarities_to_text (_model self) (map snd rows)
              (query_text :: positive) negative with
      | None => (Raise ModelError, w)
      | Some sims =>
          if top_k <? 0 then (Raise ValueError, w)
          else match islice_filter keep sims (Z.to_nat top_k) with
               | None => (Raise IndexError, w)
               | Some top =>
                   match to_results (map fst rows) top with
                   | None => (Raise IndexError, w)
                   | Some results => (Ok results, w)
                   end
               end
      end.
Proof.
  intros self q directory top_k pos neg w. cbv zeta.
  unfold search, _get_features, bind, query, ret. simpl.
  destruct (compute_similarities_to_text _ _ _ _) as [sims|];
    simpl; [|reflexivity].
  destruct (top_k <? 0); [reflexivity|].
  unfold bind.
  destruct (islice_filter _ sims (Z.to_nat top_k)) as [top|];
    simpl; [|reflexivity].
  destruct (to_results _ top); reflexivity.
Qed.

Lemma islice_filter_length :
  forall (keep : Score * Z -> option bool) sims k top,
    islice_filter keep sims k = Some top -> (List.length top <= k)%nat.
Proof.
  intros keep sims. induction sims as [|s rest IH]; intros k top H.
  - destruct k; injection H as <-; simpl; lia.
  - destruct k as [|k']; simpl in H; [injection H as <-; simpl; lia|].
    destruct (keep s) as [[|]|]; try discriminate.
    + destruct (islice_filter keep rest k') as [l|] eqn:Hl;
        try discriminate.
      injection H as <-. specialize (IH k' l Hl). simpl. lia.
    + now apply IH.
Qed.

Lemma to_results_length :
  forall (filepaths : list string) (top : list (Score * Z)) results,
    to_results filepaths top = Some results ->
    List.length results = List.length top.
Proof.
  intros filepaths top. induction top as [|th rest IH]; intros results H.
  - now injection H as <-.
  - simpl in H. destruct (py_index filepaths (snd th)); try discriminate.
    destruct (to_results filepaths rest) as [l|]; try discriminate.
    injection H as <-. simpl. f_equal. now apply IH.
Qed.

Lemma to_results_scores :
  forall (filepaths : list string) (top : list (Score * Z)) results,
    to_results filepaths top = Some results ->
    map (@r_score Score) results = map fst top.
Proof.
  intros filepaths top. induction top as [|th rest IH]; intros results H.
  - now injection H as <-.
  - simpl in H. destruct (py_index filepaths (snd th)); try discriminate.
    destruct (to_results filepaths rest) as [l|]; try discriminate.
    injection H as <-. simpl. f_equal. now apply IH.
Qed.

Lemma to_results_firstn :
  forall (filepaths : list string) (top : list (Score * Z)) results n,
    to_results filepaths top = Some results ->
    to_results filepaths (firstn n top) = Some (firstn n results).
Proof.
  intros filepaths top.
  induction top as [|th rest IH]; intros results n H.
  - injection H as <-. now destruct n.
  - simpl in H.
    destruct (py_index filepaths (snd th)) as [p|] eqn:Hp; try discriminate.
    destruct (to_results filepaths rest) as [l|] eqn:Hl; try discriminate.
    injection H as <-. destruct n as [|n]; [reflexivity|].
    simpl. rewrite Hp, (IH l n eq_refl). reflexivity.
Qed.

Lemma islice_filter_firstn :
  forall (keep : Score * Z -> option bool) sims k1 k2 top,
    (k1 <= k2)%nat ->
    islice_filter keep sims k2 = Some top ->
    islice_filter keep sims k1 = Some (firstn k1 top).
Proof.
  intros keep sims.
  induction sims as [|s rest IH]; intros k1 k2 top Hle H.
  - destruct k2; injection H as <-; destruct k1; reflexivity.
  - destruct k1 as [|k1']; [reflexivity|].
    destruct k2 as [|k2']; [lia|]. simpl in *.
    destruct (keep s) as [[|]|]; try discriminate.
    + destruct (islice_filter keep rest k2') as [l|] eqn:Hl;
        try discriminate.
      injection H as <-.
      rewrite (IH k1' k2' l) by (try lia; exact Hl). reflexivity.
    + apply (IH (S k1') (S k2') top); [lia | exact H].
Qed.

Lemma islice_filter_survivors :
  forall (keep : Score * Z -> option bool) sims k top,
    islice_filter keep sims k = Some top ->
    top = firstn k (filter (fun s => match keep s with
                                     | Some true => true
                                     | _ => false
                                     end) sims).
Proof.
  intros keep sims. induction sims as [|s rest IH]; intros k top H.
  - destruct k; injection H as <-; reflexivity.
  - destruct k as [|k']; simpl in H; [now injection H as <-|].
    cbn [filter]. destruct (keep s) as [[|]|]; try discriminate.
    + destruct (islice_filter keep rest k') as [l|] eqn:Hl;
        try discriminate.
      injection H as <-. cbn [firstn]. f_equal. now apply IH.
    + now apply IH.
Qed.

Lemma py_index_In :
  forall (A : Type) (l : list A) i x, py_index l i = Some x -> In x l.
Proof.
  intros A l i x H. unfold py_index in H.
  destruct ((0 <=? i) && (i <? Z.of_nat (List.length l)));
    [eapply nth_error_In; exact H|].
  destruct ((- Z.of_nat (List.length l) <=? i) && (i <? 0));
    [eapply nth_error_In; exact H | discriminate].
Qed.

(** X11: a search that returns gives at most [top_k] results. *)
Theorem search_returns_at_most_top_k :
  forall self query_text directory top_k positive negative w results w',
    search sep re_match is_file_path abspath self query_text directory top_k
      positive negative w = (Ok results, w') ->
    0 <= top_k /\ Z.of_nat (List.length results) <= top_k.
Proof.
  intros self q directory top_k pos neg w results w' H.
  rewrite search_outcome in H.
  destruct (compute_similarities_to_text _ _ _ _) as [sims|];
    [|discriminate].
  destruct (Z.ltb_spec top_k 0) as [Hneg|Hpos]; [discriminate|].
  destruct (islice_filter _ sims (Z.to_nat top_k)) as [top|] eqn:Ht;
    [|discriminate].
  destruct (to_results _ top) as [res|] eqn:Hr; [|discriminate].
  injection H as <- _. split; [exact Hpos|].
  rewrite (to_results_length _ _ Hr).
  pose proof (islice_filter_length _ _ _ Ht). lia.
Qed.

(** X12: the results for a smaller [top_k] are the first results for a
    larger one, in the same order: if the search for [k2] returns, the
    search for [k1 <= k2] returns the first [k1] of its results. *)
Theorem search_top_k_is_a_prefix :
  forall self query_text directory k1 k2 positive negative w results w',
    0 <= k1 <= k2 ->
    search sep re_match is_file_path abspath self query_text directory k2
      positive negative w = (Ok results, w') ->
    search sep re_match is_file_path abspath self query_text directory k1
      positive negative w = (Ok (firstn (Z.to_nat k1) results), w').
Proof.
  intros self q directory k1 k2 pos neg w results w' Hk H.
  rewrite search_outcome in *.
  destruct (compute_similarities_to_text _ _ _ _) as [sims|];
    [|discriminate].
  destruct (Z.ltb_spec k2 0) as [Hneg|Hpos]; [discriminate|].
  destruct (Z.ltb_spec k1 0) as [Hneg1|Hpos1]; [lia|].
  destruct (islice_filter _ sims (Z.to_nat k2)) as [top|] eqn:Ht;
    [|discriminate].
  destruct (to_results _ top) as [res|] eqn:Hr; [|discriminate].
  injection H as <- <-.
  assert (Hle : (Z.to_nat k1 <= Z.to_nat k2)%nat) by lia.
  rewrite (@islice_filter_firstn _ _ (Z.to_nat k1) (Z.to_nat k2) top Hle Ht).
  now rewrite (@to_results_firstn _ _ _ (Z.to_nat k1) Hr).
Qed.

(** X13: a negative [top_k] never gives a result: the search raises
    [ValueError], unless the ranking failed before. *)
Theorem search_refuses_negative_top_k :
  forall self query_text directory top_k positive negative w,
    top_k < 0 ->
    fst (search sep re_match is_file_path abspath self query_text directory
           top_k positive negative w) = Raise ValueError
    \/ fst (search sep re_match is_file_path abspath self query_text
              directory top_k positive negative w) = Raise ModelError.
Proof.
  intros self q directory top_k pos neg w Hneg.
  rewrite search_outcome.
  destruct (compute_similarities_to_text _ _ _ _); [|now right].
  destruct (Z.ltb_spec top_k 0); [now left | lia].
Qed.

(** X14: no result of a search has a path that the expression of the
    excluded directories matches. *)
Theorem search_excludes_directories :
  forall self query_text directory top_k positive negative w results w' res,
    search sep re_match is_file_path abspath self query_text directory top_k
      positive negative w = (Ok results, w') ->
    In res results ->
    re_match (_exclude_dir_regex self) (r_filepath res) = false.
Proof.
  intros self q directory top_k pos neg w results w' res H Hres.
  rewrite search_outcome in H.
  destruct (compute_similarities_to_text _ _ _ _) as [sims|];
    [|discriminate].
  destruct (top_k <? 0); [discriminate|].
  destruct (islice_filter _ sims (Z.to_nat top_k)) as [top|] eqn:Ht;
    [|discriminate].
  destruct (to_results _ top) as [rs|] eqn:Hr; [|discriminate].
  injection H as <- _.
  destruct (to_results_paths _ _ Hr _ Hres) as (th & Hth & Hidx).
  pose proof (islice_filter_kept _ _ _ Ht) as Hkept.
  rewrite Forall_forall in Hkept. specialize (Hkept th Hth).
  unfold keep_similarity in Hkept. rewrite Hidx in Hkept.
  injection Hkept as Hkept. apply andb_prop in Hkept.
  destruct Hkept as [Hre _]. now apply negb_true_iff in Hre.
Qed.

(** X15: every result of a search has the path of a record of the store
    that is under the directory. *)
Theorem search_results_are_indexed :
  forall self query_text directory top_k positive negative w results w' res,
    search sep re_match is_file_path abspath self query_text directory top_k
      positive negative w = (Ok results, w') ->
    In res results ->
    exists r, In r (db w)
              /\ under sep directory (filepath r) = true
              /\ filepath r = r_filepath res.
Proof.
  intros self q directory top_k pos neg w results w' res H Hres.
  rewrite search_outcome in H.
  destruct (compute_similarities_to_text _ _ _ _) as [sims|];
    [|discriminate].
  destruct (top_k <? 0); [discriminate|].
  destruct (islice_filter _ sims (Z.to_nat top_k)) as [top|];
    [|discriminate].
  destruct (to_results _ top) as [rs|] eqn:Hr; [|discriminate].
  injection H as <- _.
  destruct (to_results_paths _ _ Hr _ Hres) as (th & _ & Hidx).
  apply py_index_In in Hidx.
  unfold get_image_vectors_by_dir_path in Hidx.
  rewrite map_map in Hidx. apply in_map_iff in Hidx.
  destruct Hidx as (r & Hp & Hr0). apply filter_In in Hr0.
  destruct Hr0 as [Hin Hu]. exists r. repeat split; assumption.
Qed.

(** X16: the results are the first [top_k] entries of the ranking that
    pass the filter, in the order of the ranking, each with the score the
    ranking gave it. *)
Theorem search_returns_first_survivors :
  forall self query_text directory top_k positive negative w results w' sims,
    compute_similarities_to_text (_model self)
      (map snd (get_image_vectors_by_dir_path sep (db w) directory))
      (query_text :: positive) negative = Some sims ->
    search sep re_match is_file_path abspath self query_text directory top_k
      positive negative w = (Ok results, w') ->
    map (@r_score Score) results
    = map fst
        (firstn (Z.to_nat top_k)
           (filter
              (fun s =>
                 match keep_similarity re_match self
                         (map fst (get_image_vectors_by_dir_path sep (db w)
                                     directory))
                         (map abspath
                            (filter is_file_path
                               ((query_text :: positive) ++ negative))) s
                 with
                 | Some true => true
                 | _ => false
                 end) sims)).
Proof.
  intros self q directory top_k pos neg w results w' sims Hsims H.
  rewrite search_outcome in H. rewrite Hsims in H.
  destruct (top_k <? 0); [discriminate|].
  destruct (islice_filter _ sims (Z.to_nat top_k)) as [top|] eqn:Ht;
    [|discriminate].
  destruct (to_results _ top) as [rs|] eqn:Hr; [|discriminate].
  injection H as <- _.
  rewrite (to_results_scores _ _ Hr).
  now rewrite (islice_filter_survivors _ _ _ Ht).
Qed.

(** X17: when the store has no record under the directory, a search that
    returns gives no result. *)
Theorem search_of_an_empty_index :
  forall self query_text directory top_k positive negative w results w',
    (forall r, In r (db w) -> under sep directory (filepath r) = false) ->
    search sep re_match is_file_path abspath self query_text directory top_k
      positive negative w = (Ok results, w') ->
    results = [].
Proof.
  intros self q directory top_k pos neg w results w' Hempty H.
  destruct results as [|res rest]; [reflexivity|]. exfalso.
  rewrite search_outcome in H.
  destruct (compute_similarities_to_text _ _ _ _) as [sims|];
    [|discriminate].
  destruct (top_k <? 0); [discriminate|].
  destruct (islice_filter _ sims (Z.to_nat top_k)) as [top|];
    [|discriminate].
  destruct (to_results _ top) as [rs|] eqn:Hr; [|discriminate].
  injection H as -> _.
  destruct (to_results_paths _ _ Hr res (or_introl eq_refl))
    as (th & _ & Hidx).
  apply py_index_In in Hidx.
  unfold get_image_vectors_by_dir_path in Hidx.
  rewrite map_map in Hidx. apply in_map_iff in Hidx.
  destruct Hidx as (r & _ & Hr0). apply filter_In in Hr0.
  destruct Hr0 as [Hin Hu]. rewrite (Hempty r Hin) in Hu. discriminate.
Qed.

End RankerResults.

(** *** The caller *)

(** X18: [init_rclip] with indexing, over a working directory whose
    traversal yields no entry with readable metadata, raises
    [ZeroDivisionError] and leaves the store marked; with [no_indexing] it
    returns the instance and leaves the world as it was.  An empty
    [device] stands for ["cpu"]. *)
Theorem init_rclip_outcomes :
  forall (make_model : string -> Model DecodedImage FeatureVector Score)
         fs working_directory batch_size device exclude_dir w,
    let rclip :=
      __init__ sep (make_model (if (device =? "")%string
                                then "cpu" else device))
               batch_size exclude_dir in
    init_rclip sep make_model fs working_directory batch_size device
      exclude_dir true w = (Ok rclip, w)
    /\ ((forall e,
           In e (walk fs working_directory (_exclude_dir_regex rclip)) ->
           get_image_meta e = None) ->
        init_rclip sep make_model fs working_directory batch_size device
          exclude_dir false w
        = (Raise ZeroDivisionError, mark sep working_directory w)).
Proof.
  intros make_model fs wd bs device exclude_dir w rclip.
  split; [reflexivity|].
  intros Hnone. unfold init_rclip, bind. cbn [negb]. fold rclip.
  now rewrite (run_without_readable_entry rclip fs wd w Hnone).
Qed.

End Properties.

(** ** The properties on the concrete snapshots *)

(** C1: a batch of two files whose first is no image.  The record written
    for [/r/y.jpg] carries its own hash and vector, but the metadata
    [(1, 10)] of [/r/x.jpg]: the first loop of [_index_files] drops the
    file from [filtered_paths], [images] and [hashes], not from [metas].
    The file's own metadata is [(2, 20)]. *)
Theorem undecodable_file_shifts_metadata :
  let fs := snapshot broken_then_good in
  image_open fs "/r/x.jpg" = UnidentifiedImageError string
  /\ walk fs "/r" "" = [ mkEntry "/r/x.jpg" (Some (mkMeta 1 10));
                         mkEntry "/r/y.jpg" (Some (mkMeta 2 20)) ]
  /\ db (_index_files (rclip_of echo_model 8) fs
           ["/r/x.jpg"; "/r/y.jpg"] [mkMeta 1 10; mkMeta 2 20] empty_world)
     = [ mkImage "/r/y.jpg" 1 10 "hy" "vec:Y" false ]
  /\ run echo_model 8 broken_then_good empty_world
     = (Ok tt,
        mkWorld [ mkImage "/r/y.jpg" 1 10 "hy" "vec:Y" false ]
                [ mkImage "/r/y.jpg" 1 10 "hy" "vec:Y" false ]
                [["Y"]]).
Proof. repeat split. Qed.

Lemma deleted_file_is_forgotten_witness :
  run echo_model 8 renamed_tree (world_of [record_c])
  = (Ok tt, snd (run echo_model 8 renamed_tree (world_of [record_c])))
  /\ forall r,
       In r (db (snd (run echo_model 8 renamed_tree (world_of [record_c])))) ->
       filepath r <> "/r/c.jpg".
Proof.
  split; [reflexivity|].
  apply (@deleted_file_is_forgotten string string Z "/"
           (rclip_of echo_model 8) (snapshot renamed_tree) "/r"
           (world_of [record_c])
           (snd (run echo_model 8 renamed_tree (world_of [record_c])))
           "/r/c.jpg" record_c).
  - now left.
  - reflexivity.
  - reflexivity.
  - intros e He. vm_compute in He. destruct He as [<-|[]]. discriminate.
  - reflexivity.
Defined.

Lemma failed_extraction_abandons_batch_witness :
  db (_index_files (rclip_of picky_model 1) (snapshot good_and_failing)
        ["/r/z.jpg"] [mkMeta 2 20] empty_world)
  = db empty_world.
Proof.
  apply (proj1 (@failed_extraction_abandons_batch string string Z
                  (rclip_of picky_model 1) (snapshot good_and_failing)
                  ["/r/z.jpg"] ["Z"] ["/r/z.jpg"] ["hz"]
                  eq_refl eq_refl)).
Defined.

Lemma search_excludes_query_files_witness :
  search "/" (fun _ _ => false) (String.prefix "/") (fun p => p)
    (rclip_of ranking_model 8) "/r/q.jpg" "/r" 10 [] []
    (world_of indexed_pair)
  = (Ok [mkSearchResult "/r/o.jpg" 5], world_of indexed_pair)
  /\ ~ In "/r/q.jpg" (map (@r_filepath Z) [mkSearchResult "/r/o.jpg" 5]).
Proof.
  split; [reflexivity|].
  apply (@search_excludes_query_files string string Z "/"
           (fun _ _ => false) (String.prefix "/") (fun p => p)
           (rclip_of ranking_model 8) "/r/q.jpg" "/r" 10 [] []
           (world_of indexed_pair) [mkSearchResult "/r/o.jpg" 5]
           (world_of indexed_pair) "/r/q.jpg").
  - reflexivity.
  - now left.
  - reflexivity.
Defined.





(** C3 as stated fails: the record of [/o/a.jpg] holds the digest of
    [/r/b.jpg]; the run rewrites its path and keeps its metadata [(1, 10)],
    while the file reads [(2, 10)]. *)
Lemma moved_record_keeps_old_metadata :
  let w' := snd (run echo_model 8 copied_tree (world_of [record_elsewhere])) in
  run echo_model 8 copied_tree (world_of [record_elsewhere]) = (Ok tt, w')
  /\ walk (snapshot copied_tree) "/r" ""
     = [ mkEntry "/r/b.jpg" (Some (mkMeta 2 10)) ]
  /\ db w' = [ mkImage "/r/b.jpg" 1 10 "H" "V" false ]
  /\ ~ (forall r, In r (db w') -> under "/" "/r" (filepath r) = true ->
          forall e, In e (walk (snapshot copied_tree) "/r" "") ->
            path e = filepath r ->
            get_image_meta e = Some (record_meta r)).
Proof.
  repeat split. intros H.
  specialize (H (mkImage "/r/b.jpg" 1 10 "H" "V" false) (or_introl eq_refl)
                eq_refl (mkEntry "/r/b.jpg" (Some (mkMeta 2 10)))
                (or_introl eq_refl) eq_refl).
  discriminate.
Qed.

Lemma completed_run_flags_and_metadata_witness :
  let w' := snd (run echo_model 8 renamed_tree (world_of [record_c])) in
  (forall r, In r (db w') -> under "/" "/r" (filepath r) = true ->
             indexing r = false)
  /\ (forall r, In r (db w') -> under "/" "/r" (filepath r) = true ->
        scanned_as (walk (snapshot renamed_tree) "/r" "")
                   (filepath r) (record_meta r)).
Proof.
  intros w'.
  destruct (@completed_run_flags_and_metadata string string Z "/"
              (rclip_of echo_model 8) (snapshot renamed_tree) "/r"
              (world_of [record_c]) w' eq_refl) as [Hflags Hmeta].
  split; [exact Hflags|].
  apply Hmeta.
  - repeat constructor. intros [].
  - intros e He _. vm_compute in He. destruct He as [<-|[]].
    exists "B", "H". split; reflexivity.
  - intros e1 e2 h H1 H2 _ _. vm_compute in H1, H2.
    destruct H1 as [<-|[]], H2 as [<-|[]]. reflexivity.
  - intros r e Hr He Hh. vm_compute in Hr, He.
    destruct Hr as [<-|[]], He as [<-|[]]. vm_compute in Hh. discriminate.
Defined.



(** ** The further properties on the concrete snapshots *)

Lemma flush_without_images_witness :
  db (_index_files (rclip_of echo_model 8) (snapshot broken_then_good)
        ["/r/x.jpg"] [mkMeta 1 10] empty_world) = db empty_world
  /\ committed (_index_files (rclip_of echo_model 8)
                  (snapshot broken_then_good) ["/r/x.jpg"] [mkMeta 1 10]
                  empty_world) = committed empty_world
  /\ model_calls (_index_files (rclip_of echo_model 8)
                    (snapshot broken_then_good) ["/r/x.jpg"] [mkMeta 1 10]
                    empty_world) = model_calls empty_world ++ [[]].
Proof.
  apply (@flush_without_images string string Z (rclip_of echo_model 8)
           (snapshot broken_then_good) ["/r/x.jpg"] [mkMeta 1 10]
           empty_world).
  intros p image [<-|[]]. discriminate.
Defined.

Lemma flush_stores_each_file_witness :
  exists h,
    file_md5 (snapshot good_and_failing) "/r/z.jpg" = Some h
    /\ get_image
         (db (_index_files (rclip_of echo_model 8)
                (snapshot good_and_failing) ["/r/g.jpg"; "/r/z.jpg"]
                [mkMeta 1 10; mkMeta 2 20] empty_world)) "/r/z.jpg"
       = Some (mkImage "/r/z.jpg" 2 20 h "vec:Z" false).
Proof.
  apply (@flush_stores_each_file string string Z (rclip_of echo_model 8)
           (snapshot good_and_failing) ["/r/g.jpg"; "/r/z.jpg"]
           [mkMeta 1 10; mkMeta 2 20] empty_world ["vec:G"; "vec:Z"])
    with (i := 1%nat) (p := "/r/z.jpg") (meta := mkMeta 2 20)
         (vec := "vec:Z").
  - intros p [<-|[<-|[]]]; eexists; eexists; split; reflexivity.
  - repeat constructor; simpl; intuition discriminate.
  - intros p q h [<-|[<-|[]]] [<-|[<-|[]]] H1 H2;
      try reflexivity; vm_compute in H1, H2; congruence.
  - intros r p [].
  - reflexivity.
  - reflexivity.
  - reflexivity.
  - reflexivity.
Defined.

Lemma unrelated_record_survives_witness :
  In (set_indexing false record_far)
     (db (snd (run echo_model 8 renamed_tree (world_of [record_far])))).
Proof.
  apply (@unrelated_record_survives string string Z "/"
           (rclip_of echo_model 8) (snapshot renamed_tree) "/r"
           (world_of [record_far])
           (snd (run echo_model 8 renamed_tree (world_of [record_far])))
           record_far).
  - now left.
  - reflexivity.
  - intros e He. vm_compute in He. destruct He as [<-|[]]. discriminate.
  - intros r0 e [<-|[]] _ He. vm_compute in He. destruct He as [<-|[]].
    discriminate.
  - reflexivity.
Defined.


Lemma search_returns_at_most_top_k_witness :
  search_in [] ranking_model indexed_pair "cat" 1
  = (Ok [mkSearchResult "/r/q.jpg" 9], world_of indexed_pair)
  /\ 0 <= 1
  /\ Z.of_nat (List.length [mkSearchResult "/r/q.jpg" 9]) <= 1.
Proof.
  split; [reflexivity|].
  apply (@search_returns_at_most_top_k string string Z "/"
           (fun _ p => existsb (String.eqb p) []) (String.prefix "/")
           (fun p => p) (rclip_of ranking_model 8) "cat" "/r" 1 [] []
           (world_of indexed_pair) [mkSearchResult "/r/q.jpg" 9]
           (world_of indexed_pair)).
  reflexivity.
Defined.

Lemma search_top_k_is_a_prefix_witness :
  search_in [] ranking_model indexed_pair "cat" 10
  = (Ok [mkSearchResult "/r/q.jpg" 9; mkSearchResult "/r/o.jpg" 5],
     world_of indexed_pair)
  /\ search_in [] ranking_model indexed_pair "cat" 1
     = (Ok (firstn (Z.to_nat 1)
              [mkSearchResult "/r/q.jpg" 9; mkSearchResult "/r/o.jpg" 5]),
        world_of indexed_pair).
Proof.
  split; [reflexivity|].
  apply (@search_top_k_is_a_prefix string string Z "/"
           (fun _ p => existsb (String.eqb p) []) (String.prefix "/")
           (fun p => p) (rclip_of ranking_model 8) "cat" "/r" 1 10 [] []
           (world_of indexed_pair)).
  - lia.
  - reflexivity.
Defined.

Lemma search_refuses_negative_top_k_witness :
  fst (search_in [] ranking_model indexed_pair "cat" (-1)) = Raise ValueError
  \/ fst (search_in [] ranking_model indexed_pair "cat" (-1))
     = Raise ModelError.
Proof.
  apply (@search_refuses_negative_top_k string string Z "/"
           (fun _ p => existsb (String.eqb p) []) (String.prefix "/")
           (fun p => p) (rclip_of ranking_model 8) "cat" "/r" (-1) [] []
           (world_of indexed_pair)).
  lia.
Defined.

Lemma search_excludes_directories_witness :
  search_in ["/r/q.jpg"] ranking_model indexed_pair "cat" 10
  = (Ok [mkSearchResult "/r/o.jpg" 5], world_of indexed_pair)
  /\ existsb (String.eqb "/r/o.jpg") ["/r/q.jpg"] = false.
Proof.
  split; [reflexivity|].
  apply (@search_excludes_directories string string Z "/"
           (fun _ p => existsb (String.eqb p) ["/r/q.jpg"])
           (String.prefix "/") (fun p => p) (rclip_of ranking_model 8)
           "cat" "/r" 10 [] [] (world_of indexed_pair)
           [mkSearchResult "/r/o.jpg" 5] (world_of indexed_pair)
           (mkSearchResult "/r/o.jpg" 5)).
  - reflexivity.
  - now left.
Defined.

Lemma search_results_are_indexed_witness :
  exists r, In r (db (world_of indexed_pair))
            /\ under "/" "/r" (filepath r) = true
            /\ filepath r = "/r/o.jpg".
Proof.
  apply (@search_results_are_indexed string string Z "/"
           (fun _ p => existsb (String.eqb p) []) (String.prefix "/")
           (fun p => p) (rclip_of ranking_model 8) "cat" "/r" 10 [] []
           (world_of indexed_pair)
           [mkSearchResult "/r/q.jpg" 9; mkSearchResult "/r/o.jpg" 5]
           (world_of indexed_pair) (mkSearchResult "/r/o.jpg" 5)).
  - reflexivity.
  - right. now left.
Defined.

Lemma search_returns_first_survivors_witness :
  map (@r_score Z) [mkSearchResult "/r/o.jpg" 5] = [5]
  /\ search_in [] ranking_model indexed_pair "/r/q.jpg" 10
     = (Ok [mkSearchResult "/r/o.jpg" 5], world_of indexed_pair).
Proof.
  split; [|reflexivity].
  apply (@search_returns_first_survivors string string Z "/"
           (fun _ p => existsb (String.eqb p) []) (String.prefix "/")
           (fun p => p) (rclip_of ranking_model 8) "/r/q.jpg" "/r" 10 [] []
           (world_of indexed_pair) [mkSearchResult "/r/o.jpg" 5]
           (world_of indexed_pair) [(9, 0); (5, 1)]).
  - reflexivity.
  - reflexivity.
Defined.

Lemma search_of_an_empty_index_witness :
  search_in [] silent_model [record_far] "cat" 10
  = (Ok [], world_of [record_far])
  /\ @nil (SearchResult Z) = [].
Proof.
  split; [reflexivity|].
  apply (@search_of_an_empty_index string string Z "/"
           (fun _ p => existsb (String.eqb p) []) (String.prefix "/")
           (fun p => p) (rclip_of silent_model 8) "cat" "/r" 10 [] []
           (world_of [record_far]) [] (world_of [record_far])).
  - intros r [<-|[]]. reflexivity.
  - reflexivity.
Defined.

Lemma fresh_run_extraction_count_witness :
  exists calls,
    model_calls (snd (run echo_model 1 good_and_failing empty_world))
    = model_calls empty_world ++ calls
    /\ Z.of_nat (List.length calls) = 2.
Proof.
  apply (@fresh_run_extraction_count string string Z "/"
           (rclip_of echo_model 1) (snapshot good_and_failing) "/r"
           empty_world).
  - vm_compute. discriminate.
  - repeat constructor; simpl; intuition discriminate.
  - intros r e [].
Defined.
